(** * DataFinder: the sitemap crawler and product extractor of [scrape.mjs]

    A shallow embedding of the sitemap-crawl branch of [main] in
    [src/scrape.mjs]: sitemap discovery, the three-strategy product
    extractor that runs inside [p.evaluate], the batch loop and the CSV
    sink, followed by the properties proved about them.

    Conventions of the embedding.
    - A JavaScript string is a Rocq [string] (a sequence of 8-bit
      characters).  [toLowerCase] and [trim] are the ASCII restrictions of
      the JavaScript operations.
    - A JavaScript number that is only tested for truthiness and converted
      with [String(...)] is kept as its canonical decimal rendering
      ([VNum]); the Shopify variant price, on which the code does
      arithmetic, is an integer ([Z]).
    - The browser is an input: a page is a snapshot of the DOM queries the
      extractor performs, and a navigation either fails or yields such a
      snapshot.  Opening and closing a tab are taken to succeed.
    - Creating the output directory and writing to the output file are
      taken to succeed.
    - The console of a run is what [console.log] prints, which the code
      does sequentially.  What [console.error] prints for the URLs of a
      batch comes from promises that run concurrently: the order in which
      their attempts end is an input ([batchErrors]). *)

From Stdlib Require Import String Ascii List Bool Arith ZArith Lia Sorted
  Permutation.
Import ListNotations.
Set Warnings "-register-all".
Open Scope list_scope.
Open Scope string_scope.

(* ================================================================= *)
(** ** JavaScript strings *)

(** The double-quote character and the line feed. *)
Definition dquote : ascii := "034"%char.
Definition newline : ascii := "010"%char.

Definition str1 (c : ascii) : string := String c EmptyString.

(** [stripPrefix p s]: the rest of [s] after the literal [p], when [s]
    starts with [p]. *)
Fixpoint stripPrefix (p s : string) : option string :=
  match p with
  | EmptyString => Some s
  | String a p' =>
      match s with
      | EmptyString => None
      | String b s' => if Ascii.eqb a b then stripPrefix p' s' else None
      end
  end.

(** [s.startsWith(p)] *)
Definition startsWith (s p : string) : bool :=
  match stripPrefix p s with Some _ => true | None => false end.

(** [s.includes(sub)] *)
Fixpoint includes (s sub : string) : bool :=
  startsWith s sub ||
  match s with
  | EmptyString => false
  | String _ r => includes r sub
  end.

(** White space removed by [trim], within ASCII: TAB, LF, VT, FF, CR and
    the space. *)
Definition isWhite (c : ascii) : bool :=
  let n := nat_of_ascii c in
  ((9 <=? n)%nat && (n <=? 13)%nat) || (n =? 32)%nat.

Fixpoint trimStart (s : string) : string :=
  match s with
  | EmptyString => EmptyString
  | String c r => if isWhite c then trimStart r else s
  end.

Fixpoint trimEnd (s : string) : string :=
  match s with
  | EmptyString => EmptyString
  | String c r =>
      match trimEnd r with
      | EmptyString => if isWhite c then EmptyString else str1 c
      | r' => String c r'
      end
  end.

(** [s.trim()] *)
Definition trim (s : string) : string := trimEnd (trimStart s).

Definition lowerChar (c : ascii) : ascii :=
  let n := nat_of_ascii c in
  if (65 <=? n)%nat && (n <=? 90)%nat then ascii_of_nat (n + 32) else c.

(** [s.toLowerCase()] *)
Fixpoint toLowerCase (s : string) : string :=
  match s with
  | EmptyString => EmptyString
  | String c r => String (lowerChar c) (toLowerCase r)
  end.

(** [s.split(sep)] for a one-character separator: never the empty list. *)
Fixpoint split (sep : ascii) (s : string) : list string :=
  match s with
  | EmptyString => [EmptyString]
  | String c r =>
      if Ascii.eqb c sep then EmptyString :: split sep r
      else match split sep r with
           | [] => [str1 c]
           | h :: t => String c h :: t
           end
  end.

(** [arr.pop()] read as a value: the last element ([undefined], which
    cannot arise after [split], is rendered as the empty string). *)
Definition pop (l : list string) : string := last l EmptyString.

(** The escaping of line 366, [replace] with the global one-character
    pattern matching the double quote and the replacement made of two
    double quotes. *)
Fixpoint doubleQuotes (s : string) : string :=
  match s with
  | EmptyString => EmptyString
  | String c r =>
      if Ascii.eqb c dquote then String dquote (String dquote (doubleQuotes r))
      else String c (doubleQuotes r)
  end.

(** A string is truthy when it is not empty. *)
Definition nonEmpty (s : string) : bool :=
  match s with EmptyString => false | _ => true end.

(* ================================================================= *)
(** ** Sitemap parsing: the [<loc>] regular expression (lines 111-116) *)

(** [spanNot stop s]: the longest prefix of [s] free of [stop], and the
    rest.  This is what the greedy [[^<]+] consumes; giving characters
    back cannot help the match, since the next pattern character is the
    excluded one. *)
Fixpoint spanNot (stop : ascii) (s : string) : string * string :=
  match s with
  | EmptyString => (EmptyString, EmptyString)
  | String c r =>
      if Ascii.eqb c stop then (EmptyString, s)
      else let (a, b) := spanNot stop r in (String c a, b)
  end.

(** One attempt of [/<loc>([^<]+)<\/loc>/] anchored at the start of [s]:
    the captured group and the length of the whole match. *)
Definition matchLocAt (s : string) : option (string * nat) :=
  match stripPrefix "<loc>" s with
  | None => None
  | Some s1 =>
      let (cap, s2) := spanNot "<" s1 in
      match cap with
      | EmptyString => None
      | _ =>
          match stripPrefix "</loc>" s2 with
          | Some _ => Some (cap, 5 + String.length cap + 6)
          | None => None
          end
      end
  end.

(** [while ((m = re.exec(xml))) locs.push(m[1])] with the [g] flag: the
    leftmost match from [lastIndex] on is taken and [lastIndex] moves past
    it.  [skip] counts the characters still to pass to reach [lastIndex]. *)
Fixpoint execLocs (skip : nat) (s : string) : list string :=
  match s with
  | EmptyString => []
  | String _ r =>
      match skip with
      | S k => execLocs k r
      | O =>
          match matchLocAt s with
          | Some (cap, len) => cap :: execLocs (len - 1) r
          | None => execLocs 0 r
          end
      end
  end.

Definition extractLocs (xml : string) : list string := execLocs 0 xml.

(* ================================================================= *)
(** ** Sitemap discovery (lines 103-142) *)

(** [base.replace(/\/+$/, '')]: the trailing slashes are removed. *)
Fixpoint dropTrailingSlashes (s : string) : string :=
  match s with
  | EmptyString => EmptyString
  | String c r =>
      match dropTrailingSlashes r with
      | EmptyString => if Ascii.eqb c "/" then EmptyString else str1 c
      | r' => String c r'
      end
  end.

(** Lines 103-104; [url] is [None] when neither the flag nor the
    environment gives one. *)
Definition sitemapUrlOf (url : option string) : string :=
  let given := match url with Some u => u | None => EmptyString end in
  let base := trim (if nonEmpty given then given else "https://thepihut.com") in
  trim (dropTrailingSlashes base ++ "/sitemap.xml").

(** [new Set()]: membership, and [add], which keeps insertion order. *)
Definition setHas (s : list string) (u : string) : bool :=
  existsb (String.eqb u) s.

Definition setAdd (s : list string) (u : string) : list string :=
  if setHas s u then s else (s ++ [u])%list.

Definition isProductSitemap (l : string) : bool := includes l "sitemap_products".
Definition isProductUrl (u : string) : bool := includes u "/products/".

(** Lines 136-138: the inner loop over the locations of one sub-sitemap. *)
Definition addProductUrls (set urls : list string) : list string :=
  fold_left (fun acc u => if isProductUrl u then setAdd acc u else acc) urls set.

(** Lines 125-139.  [fetch sm] is the text of the document at [sm], or
    [None] when [page.goto] or [r.text()] throws, which ends the run. *)
Fixpoint visitSitemaps (fetch : string -> option string)
    (sitemaps set : list string) : option (list string) :=
  match sitemaps with
  | [] => Some set
  | sm :: rest =>
      match fetch sm with
      | None => None
      | Some x => visitSitemaps fetch rest (addProductUrls set (extractLocs x))
      end
  end.

(** The predicate of line 142, [u && u.trim() !== '']. *)
Definition keepUrl (u : string) : bool :=
  nonEmpty u && negb (trim u =? EmptyString).

(** Lines 119-120. *)
Definition candidateSitemaps (locs : list string) : list string :=
  let productSitemaps := filter isProductSitemap locs in
  if (List.length productSitemaps =? 0)%nat then locs else productSitemaps.

(** Lines 107-142: [productUrls]. *)
Definition discover (fetch : string -> option string) (sitemapUrl : string)
    : option (list string) :=
  match fetch sitemapUrl with
  | None => None
  | Some xml =>
      match visitSitemaps fetch (candidateSitemaps (extractLocs xml)) [] with
      | None => None
      | Some set => Some (filter keepUrl set)
      end
  end.

(* ================================================================= *)
(** ** JavaScript values read by the extractor *)

(** A parsed JSON value, or [undefined] for a missing property.  A number
    is kept as the text [String(n)] produces: the extractor only tests it
    for truthiness and prints it. *)
Inductive JsVal : Type :=
| VUndef
| VNull
| VBool (b : bool)
| VNum (repr : string)
| VStr (s : string)
| VArr (items : list JsVal)
| VObj (props : list (string * JsVal)).

Definition truthy (v : JsVal) : bool :=
  match v with
  | VUndef | VNull => false
  | VBool b => b
  | VNum r => negb (r =? "0") && negb (r =? "NaN")
  | VStr s => nonEmpty s
  | VArr _ | VObj _ => true
  end.

(** [a || b] and [a && b] *)
Definition jsOr (a b : JsVal) : JsVal := if truthy a then a else b.
Definition jsAnd (a b : JsVal) : JsVal := if truthy a then b else a.

Fixpoint lookup (k : string) (props : list (string * JsVal)) : JsVal :=
  match props with
  | [] => VUndef
  | (k', v) :: rest => if k' =? k then v else lookup k rest
  end.

(** [o.k] for a data property [k] and [o] neither [null] nor [undefined]:
    primitives and arrays have none of the properties read here. *)
Definition getProp (o : JsVal) (k : string) : JsVal :=
  match o with
  | VObj props => lookup k props
  | _ => VUndef
  end.

(** [String(v)] *)
Fixpoint toStr (v : JsVal) : string :=
  match v with
  | VUndef => "undefined"
  | VNull => "null"
  | VBool true => "true"
  | VBool false => "false"
  | VNum r => r
  | VStr s => s
  | VArr items =>
      String.concat ","
        (map (fun x => match x with
                       | VUndef | VNull => EmptyString
                       | _ => toStr x
                       end) items)
  | VObj _ => "[object Object]"
  end.

(** [typeof v === 'object' && v !== null] *)
Definition isObjectLike (v : JsVal) : bool :=
  match v with VArr _ | VObj _ => true | _ => false end.

(** A computation that may throw. *)
Inductive Res (A : Type) : Type :=
| Ret (a : A)
| Throw.
Arguments Ret {A} a.
Arguments Throw {A}.

(* ================================================================= *)
(** ** The page as the extractor sees it *)

Record Extracted : Type := mkExtracted {
  name : string;
  sku : string;
  price : JsVal;
  availability : string
}.

Record Variant : Type := mkVariant {
  v_name : option string;
  v_sku : option string;
  v_price : option Z
}.

Record ShopifyProduct : Type := mkShopifyProduct {
  sp_type : option string;
  sp_handle : option string;
  sp_variants : list Variant
}.

(** The selectors passed to [document.querySelector], in source order. *)
Inductive Selector : Type :=
| SelH1
| SelPriceMeta       (* meta[property=product:price:amount] *)
| SelItempropPrice   (* [itemprop=price] *)
| SelPrice           (* .price *)
| SelProductPrice    (* .product-price *)
| SelDataStock       (* [data-stock] *)
| SelAvailability    (* .availability *)
| SelStockStatus     (* .stock-status *)
| SelInventory       (* .product-form__inventory *)
| SelSku             (* .sku *)
| SelItempropSku     (* [itemprop=sku] *)
| SelProductSku      (* .product-sku *)
| SelVariantSku.     (* .variant-sku *)

Record Element : Type := mkElement {
  textContent : string;
  contentAttr : option string   (* getAttribute('content') *)
}.

(** What the function given to [p.evaluate] reads from the document.
    - [htmlDecode s]: the value of a textarea whose [innerHTML] is [s];
    - [ldJson]: for each non-empty JSON-LD script, [JSON.parse] of its
      text, [None] when the parse throws;
    - [shopifyMeta]: [window.meta?.product ||
      window.ShopifyAnalytics?.meta?.product];
    - [bodyStock], [bodyAvailabilityLabel], [bodySku]: group 1 of the
      match of [/Stock:\s*([^\n]+)/i], [/Availability:\s*([^\n]+)/i] and
      [/SKU:\s*([^\n]+)/] on [document.body.innerText];
    - [bodyOnlyUnitsLeft]: whether [/Only \d+ units left/i] matches it. *)
Record Page : Type := mkPage {
  htmlDecode : string -> string;
  ldJson : list (option JsVal);
  shopifyMeta : option ShopifyProduct;
  title : string;
  querySelector : Selector -> option Element;
  bodyStock : option string;
  bodyAvailabilityLabel : option string;
  bodyOnlyUnitsLeft : bool;
  bodySku : option string
}.

(* ================================================================= *)
(** ** Strategy 1: JSON-LD (lines 174-230) *)

(** [decodeHtml] of lines 174-179, with the document's textarea. *)
Definition decodeHtml (pg : Page) (html : JsVal) : string :=
  if truthy html then htmlDecode pg (toStr html) else EmptyString.

(** Line 187. *)
Definition isProductType (types : JsVal) : bool :=
  match types with
  | VArr ts =>
      existsb (fun t => match t with VStr s => s =? "Product" | _ => false end) ts
  | VStr s => s =? "Product"
  | _ => false
  end.

(** Lines 197-203 for the first offer [o]: the price and the availability
    before normalization.  Reading a property of [null] throws. *)
Definition offerFields (o : JsVal) : Res (JsVal * JsVal) :=
  match o with
  | VUndef | VNull => Throw
  | _ =>
      let oPrice :=
        jsOr (jsOr (getProp o "price")
                   (jsAnd (getProp o "priceSpecification")
                          (getProp (getProp o "priceSpecification") "price")))
             (VStr EmptyString) in
      let a0 := jsOr (getProp o "availability") (VStr EmptyString) in
      let a1 :=
        match a0 with
        | VArr items => jsOr (nth 0 items VUndef) (VStr EmptyString)
        | _ => a0
        end in
      let a2 :=
        if isObjectLike a1
        then jsOr (jsOr (getProp a1 "name") (getProp a1 "@id"))
                  (VStr EmptyString)
        else a1 in
      Ret (oPrice, a2)
  end.

(** Lines 193-205. *)
Definition readOffers (offers : JsVal) : Res (JsVal * JsVal) :=
  if truthy offers then
    match (match offers with VArr l => l | _ => [offers] end) with
    | [] => Ret (VStr EmptyString, VStr EmptyString)
    | o :: _ => offerFields o
    end
  else Ret (VStr EmptyString, VStr EmptyString).

(** Lines 207-210. *)
Definition normalizeLdAvailability (raw : JsVal) : string :=
  let a := toStr (jsOr raw (VStr EmptyString)) in
  if includes a "/" then pop (split "/" a) else a.

(** The body of the loop of [pickProduct] for one entry: [Ret None] when
    the entry is not a Product. *)
Definition pickEntry (pg : Page) (obj : JsVal) : Res (option Extracted) :=
  match obj with
  | VUndef | VNull => Throw
  | _ =>
      if isProductType (getProp obj "@type") then
        let ldName := decodeHtml pg (jsOr (getProp obj "name") (VStr EmptyString)) in
        let ldSku := decodeHtml pg (jsOr (getProp obj "sku") (VStr EmptyString)) in
        match readOffers (getProp obj "offers") with
        | Throw => Throw
        | Ret (ldPrice, ldAvailability) =>
            Ret (Some (mkExtracted ldName ldSku ldPrice
                         (normalizeLdAvailability ldAvailability)))
        end
      else Ret None
  end.

Fixpoint pickEntries (pg : Page) (arr : list JsVal) : Res (option Extracted) :=
  match arr with
  | [] => Ret None
  | obj :: rest =>
      match pickEntry pg obj with
      | Throw => Throw
      | Ret (Some e) => Ret (Some e)
      | Ret None => pickEntries pg rest
      end
  end.

(** [pickProduct(j)], lines 182-215. *)
Definition pickProduct (pg : Page) (j : JsVal) : Res (option Extracted) :=
  pickEntries pg (match j with VArr l => l | _ => [j] end).

(** Lines 222-230: the first script that yields a product; a script that
    fails to parse, or on which [pickProduct] throws, is passed over. *)
Fixpoint scanScripts (pg : Page) (scripts : list (option JsVal)) : option Extracted :=
  match scripts with
  | [] => None
  | None :: rest => scanScripts pg rest
  | Some j :: rest =>
      match pickProduct pg j with
      | Ret (Some e) => Some e
      | _ => scanScripts pg rest
      end
  end.

Definition jsonLdStrategy (pg : Page) : option Extracted :=
  scanScripts pg (ldJson pg).

(* ================================================================= *)
(** ** Strategy 2: Shopify metadata (lines 232-255) *)

Definition optStr (o : option string) : JsVal :=
  match o with Some s => VStr s | None => VUndef end.

(** Decimal digits of a natural number. *)
Definition digitChar (d : Z) : ascii := ascii_of_nat (48 + Z.to_nat d).

Fixpoint showDigits (fuel : nat) (n : Z) (acc : string) : string :=
  match fuel with
  | O => acc
  | S f =>
      let acc' := String (digitChar (n mod 10)) acc in
      if (n <? 10)%Z then acc' else showDigits f (n / 10) acc'
  end.

Definition showNat (n : Z) : string :=
  showDigits (S (Z.to_nat (Z.log2 n))) n EmptyString.

(** [(p / 100).toFixed(2)] for an integer [p].  The double quotient is
    within half a unit in the last place of the exact one, and [toFixed]
    takes the hundredth nearest to the double: below 2^52 in magnitude
    that hundredth is [p] itself, so the digits are those of the exact
    quotient. *)
Definition centsToFixed2 (p : Z) : string :=
  let a := Z.abs p in
  (if (p <? 0)%Z then "-" else EmptyString) ++
  showNat (a / 100) ++ "." ++
  String (digitChar ((a / 10) mod 10)) (str1 (digitChar (a mod 10))).

(** Line 241. *)
Definition shopifyName (pg : Page) (sp : ShopifyProduct) (v : Variant) : JsVal :=
  if match sp_type sp with
     | Some t => nonEmpty t && includes t "Case"
     | None => false
     end
  then jsOr (optStr (v_name v)) (optStr (sp_handle sp))
  else jsOr (optStr (v_name v)) (VStr (title pg)).

(** Line 245. *)
Definition shopifyPrice (v : Variant) : string :=
  match v_price v with
  | Some p => if (p =? 0)%Z then EmptyString else centsToFixed2 p
  | None => EmptyString
  end.

Definition shopifyStrategy (pg : Page) (extracted : option Extracted)
    : option Extracted :=
  if match extracted with
     | None => true
     | Some e => negb (nonEmpty (sku e))
     end
  then
    match shopifyMeta pg with
    | Some sp =>
        match sp_variants sp with
        | v :: _ =>
            let spName := shopifyName pg sp v in
            let finalName :=
              decodeHtml pg
                (jsOr (match extracted with
                       | Some e => VStr (name e)
                       | None => VUndef
                       end) spName) in
            let spSku := decodeHtml pg (jsOr (optStr (v_sku v)) (VStr EmptyString)) in
            let spPrice := VStr (shopifyPrice v) in
            match extracted with
            | None => Some (mkExtracted finalName spSku spPrice EmptyString)
            | Some e =>
                let e1 :=
                  if negb (nonEmpty (sku e))
                  then mkExtracted (name e) spSku (price e) (availability e)
                  else e in
                let e2 :=
                  if negb (truthy (price e1))
                  then mkExtracted (name e1) (sku e1) spPrice (availability e1)
                  else e1 in
                Some e2
            end
        | [] => extracted
        end
    | None => extracted
    end
  else extracted.

(* ================================================================= *)
(** ** Strategy 3: DOM fallbacks (lines 257-342), and the final override *)

(** [a || b] on values that are strings or [null]; [null] is read as the
    empty string, which is as falsy. *)
Definition orStr (a b : string) : string := if nonEmpty a then a else b.

Definition attrOrEmpty (o : option string) : string :=
  match o with Some s => s | None => EmptyString end.

(** [(el.textContent || '').trim()] *)
Definition trimmedText (el : Element) : string := trim (textContent el).

(** [q(a) || q(b) || ...]: the first selector that matches. *)
Fixpoint firstMatch (pg : Page) (sels : list Selector) : option Element :=
  match sels with
  | [] => None
  | s :: rest =>
      match querySelector pg s with
      | Some el => Some el
      | None => firstMatch pg rest
      end
  end.

Definition isDigit (c : ascii) : bool :=
  let n := nat_of_ascii c in (48 <=? n)%nat && (n <=? 57)%nat.

Fixpoint spanDigits (s : string) : string * string :=
  match s with
  | EmptyString => (EmptyString, EmptyString)
  | String c r =>
      if isDigit c then let (a, b) := spanDigits r in (String c a, b)
      else (EmptyString, s)
  end.

(** Group 1 of [raw.match(/(\d+(?:\.\d+)?)/)]: the first run of digits,
    with a fraction when a dot and a digit follow it. *)
Fixpoint firstNumber (s : string) : option string :=
  match s with
  | EmptyString => None
  | String c r =>
      if isDigit c then
        let (ds, rest) := spanDigits s in
        Some (ds ++
              match rest with
              | String d rest' =>
                  if Ascii.eqb d "." then
                    let (fs, _) := spanDigits rest' in
                    if nonEmpty fs then String d fs else EmptyString
                  else EmptyString
              | EmptyString => EmptyString
              end)
      else firstNumber r
  end.

(** Line 259. *)
Definition emptyRecord : Extracted :=
  mkExtracted EmptyString EmptyString (VStr EmptyString) EmptyString.

(** Lines 263-265. *)
Definition domName (pg : Page) (e : Extracted) : Extracted :=
  if negb (nonEmpty (name e)) then
    mkExtracted
      (match querySelector pg SelH1 with
       | Some el => trimmedText el
       | None => trim EmptyString
       end)
      (sku e) (price e) (availability e)
  else e.

(** Lines 269-283: the price read from the document. *)
Definition domPriceText (pg : Page) : string :=
  let fromMeta :=
    match querySelector pg SelPriceMeta with
    | Some el => attrOrEmpty (contentAttr el)
    | None => EmptyString
    end in
  let fromItemprop :=
    match querySelector pg SelItempropPrice with
    | Some el => orStr (attrOrEmpty (contentAttr el)) (trimmedText el)
    | None => EmptyString
    end in
  let found := orStr fromMeta fromItemprop in
  if negb (nonEmpty found) then
    let raw :=
      match firstMatch pg [SelItempropPrice; SelPrice; SelProductPrice] with
      | Some el => trimmedText el
      | None => EmptyString
      end in
    match (if nonEmpty raw then firstNumber raw else None) with
    | Some m1 => m1
    | None => raw
    end
  else found.

(** Lines 267-285. *)
Definition domPrice (pg : Page) (e : Extracted) : Extracted :=
  if negb (truthy (price e)) then
    mkExtracted (name e) (sku e) (VStr (domPriceText pg)) (availability e)
  else e.

(** Lines 289-307: the availability text found in the document. *)
Definition detectAvailabilityText (pg : Page) : string :=
  let text :=
    match firstMatch pg [SelDataStock; SelAvailability; SelStockStatus; SelInventory] with
    | Some el => trimmedText el
    | None => EmptyString
    end in
  if negb (nonEmpty text) then
    let stockMatch :=
      match bodyStock pg with
      | Some g => Some g
      | None => bodyAvailabilityLabel pg
      end in
    let text1 := match stockMatch with Some g => trim g | None => text end in
    if negb (nonEmpty text1) && bodyOnlyUnitsLeft pg then "InStock" else text1
  else text.

(** Lines 311-317, for a text that is not empty. *)
Definition normalizeStockText (text : string) : string :=
  if includes (toLowerCase text) "in stock" || includes text "units left"
  then "InStock"
  else if includes (toLowerCase text) "out of stock" ||
          includes (toLowerCase text) "sold out"
       then "OutOfStock"
       else text.

(** Lines 287-324. *)
Definition domAvailability (pg : Page) (e : Extracted) : Extracted :=
  if negb (nonEmpty (availability e)) || (availability e =? EmptyString) then
    let text := detectAvailabilityText pg in
    let a1 := if nonEmpty text then normalizeStockText text else availability e in
    let a2 := if includes a1 "/" then pop (split "/" a1) else a1 in
    mkExtracted (name e) (sku e) (price e) a2
  else e.

(** Lines 326-342. *)
Definition domSku (pg : Page) (e : Extracted) : Extracted :=
  if negb (nonEmpty (sku e)) then
    let fromEl :=
      match firstMatch pg [SelSku; SelItempropSku; SelProductSku; SelVariantSku] with
      | Some el => trimmedText el
      | None => EmptyString
      end in
    let found :=
      if negb (nonEmpty fromEl) then
        match bodySku pg with
        | Some g => trim g
        | None => fromEl
        end
      else fromEl in
    mkExtracted (name e) found (price e) (availability e)
  else e.

Definition domStrategy (pg : Page) (e : Extracted) : Extracted :=
  domSku pg (domAvailability pg (domPrice pg (domName pg e))).

(** Lines 344-348. *)
Definition finalOverride (e : Extracted) : Extracted :=
  if nonEmpty (name e) && includes (toLowerCase (name e)) "[discontinued]"
  then mkExtracted (name e) (sku e) (price e) "Discontinued"
  else e.

(** The record after strategies 1 and 2 and the default of line 259. *)
Definition structuredRecord (pg : Page) : Extracted :=
  match shopifyStrategy pg (jsonLdStrategy pg) with
  | Some e => e
  | None => emptyRecord
  end.

(** The function evaluated in the page, lines 172-351. *)
Definition extract (pg : Page) : Extracted :=
  finalOverride (domStrategy pg (structuredRecord pg)).

(* ================================================================= *)
(** ** The CSV sink and the batch loop (lines 145-376) *)

(** What visiting a product URL gives: [p.goto] throws (a navigation
    error or the 60 s timeout), [p.evaluate] throws, or the page loads
    and the extractor runs on it. *)
Inductive PageLoad : Type :=
| NavigationFails (msg : string)
| EvaluationFails (msg : string)
| Loaded (pg : Page).

Definition Web : Type := string -> PageLoad.

(** A line printed with [console.log] in the sitemap branch. *)
Inductive LogEvent : Type :=
| FetchingSitemap (sitemapUrl : string)   (* line 105 *)
| FoundProducts (found limit : nat)       (* line 146 *)
| Progress (done limit : nat)             (* line 374 *)
| Done.                                   (* line 376 *)

(** A line printed with [console.error] on line 354. *)
Inductive ErrorLine : Type :=
| ScrapeFailed (u msg : string).

(** The state the loop changes: the output file, the URLs handed to
    [p.goto], and what [console.log] has printed. *)
Record Run : Type := mkRun {
  file : string;
  attempted : list string;
  console : list LogEvent
}.

Definition header : string := "name,sku,price,availability" ++ str1 newline.

(** Line 163: [!u || u.trim() === ''] *)
Definition isBlank (u : string) : bool :=
  negb (nonEmpty u) || (trim u =? EmptyString).

(** The promise of lines 162-359 for one URL, settled: the record, or
    [None] for [null]. *)
Definition scrapeOne (web : Web) (u : string) : option Extracted :=
  if isBlank u then None
  else match web u with
       | Loaded pg => Some (extract pg)
       | NavigationFails _ | EvaluationFails _ => None
       end.

(** What the promise of one URL prints with [console.error] when it
    settles, lines 353-355. *)
Definition scrapeLog (web : Web) (u : string) : list ErrorLine :=
  if isBlank u then []
  else match web u with
       | Loaded _ => []
       | NavigationFails m | EvaluationFails m => [ScrapeFailed u m]
       end.

(** What [console.error] prints during one batch.  The promises of
    line 162 run concurrently and each prints from its own [catch]:
    [settled] lists the URLs of the batch in the order in which their
    attempts end, which the browser decides. *)
Definition batchErrors (web : Web) (settled : list string) : list ErrorLine :=
  flat_map (scrapeLog web) settled.

(** Line 362: [results.filter(r => r !== null)] *)
Fixpoint validResults (results : list (option Extracted)) : list Extracted :=
  match results with
  | [] => []
  | Some r :: rest => r :: validResults rest
  | None :: rest => validResults rest
  end.

(** Line 366: [String(v || '')] with the quotes doubled. *)
Definition esc (v : JsVal) : string :=
  doubleQuotes (toStr (jsOr v (VStr EmptyString))).

Definition quoted (v : JsVal) : string :=
  str1 dquote ++ esc v ++ str1 dquote.

(** Line 367. *)
Definition csvLine (info : Extracted) : string :=
  quoted (VStr (name info)) ++ "," ++ quoted (VStr (sku info)) ++ "," ++
  quoted (price info) ++ "," ++ quoted (VStr (availability info)).

(** Lines 371-373: [fs.appendFileSync], guarded. *)
Definition appendLines (f : string) (lines : list string) : string :=
  if (0 <? List.length lines)%nat
  then f ++ (String.concat (str1 newline) lines ++ str1 newline)
  else f.

Definition BATCH_SIZE : nat := 10.

(** [arr.slice(i, j)] *)
Definition slice {A : Type} (i j : nat) (l : list A) : list A :=
  firstn (j - i) (skipn i l).

(** The URLs of a batch that reach [p.goto], line 169. *)
Definition gotoUrls (batch : list string) : list string :=
  filter (fun u => negb (isBlank u)) batch.

(** One turn of the loop, lines 159-374. *)
Definition processBatch (web : Web) (i limit : nat) (batch : list string)
    (st : Run) : Run :=
  let results := map (scrapeOne web) batch in
  let lines := map csvLine (validResults results) in
  mkRun (appendLines (file st) lines)
        (attempted st ++ gotoUrls batch)%list
        (console st ++ [Progress (Nat.min (i + BATCH_SIZE) limit) limit])%list.

(** Lines 158-375.  Each turn uses one unit of [fuel]; [None] means the
    fuel ran out before the loop ended. *)
Fixpoint batchLoop (fuel : nat) (web : Web) (productUrls : list string)
    (limit i : nat) (st : Run) : option Run :=
  if (i <? limit)%nat then
    match fuel with
    | O => None
    | S fuel' =>
        let batch := slice i (Nat.min (i + BATCH_SIZE) limit) productUrls in
        batchLoop fuel' web productUrls limit (i + BATCH_SIZE)
                  (processBatch web i limit batch st)
    end
  else Some st.

(** Line 145. *)
Definition limitOf (maxProducts : Z) (discovered : nat) : nat :=
  Z.to_nat (if (0 <? maxProducts)%Z
            then Z.min maxProducts (Z.of_nat discovered)
            else Z.of_nat discovered).

(** Lines 145-376: the count is printed, the file is created with the
    header, the batches run and the end is printed.  The loop makes at
    most [limit] turns. *)
Definition crawl (web : Web) (productUrls : list string) (maxProducts : Z)
    : option Run :=
  let limit := limitOf maxProducts (List.length productUrls) in
  match batchLoop limit web productUrls limit 0
          (mkRun header [] [FoundProducts (List.length productUrls) limit]) with
  | Some st => Some (mkRun (file st) (attempted st) (console st ++ [Done])%list)
  | None => None
  end.

(** Lines 103-376, the sitemap branch of [main] for a [url] that is a
    string or is missing; [None] when a sitemap cannot be fetched, in
    which case the error reaches the handler of line 403 before the
    output file is created. *)
Definition sitemapMode (fetch : string -> option string) (web : Web)
    (url : option string) (maxProducts : Z) : option Run :=
  match discover fetch (sitemapUrlOf url) with
  | None => None
  | Some productUrls =>
      match crawl web productUrls maxProducts with
      | Some st =>
          Some (mkRun (file st) (attempted st)
                      (FetchingSitemap (sitemapUrlOf url) :: console st))
      | None => None
      end
  end.

(* ================================================================= *)
(** ** Command line and environment (lines 7-26 and 62-84) *)

(** A value stored by [parseArgs]: a string, or [true] for a bare flag. *)
Inductive ArgVal : Type :=
| ArgStr (s : string)
| ArgTrue.

(** The object [args]: its own properties, the latest assignment
    first.  Its prototype is [Object.prototype]. *)
Definition Args : Type := list (string * ArgVal).

(** The names of the properties of [Object.prototype]. *)
Definition objectPrototypeKeys : list string :=
  ["constructor"; "__defineGetter__"; "__defineSetter__"; "hasOwnProperty";
   "__lookupGetter__"; "__lookupSetter__"; "isPrototypeOf";
   "propertyIsEnumerable"; "toString"; "valueOf"; "__proto__";
   "toLocaleString"].

(** [args[k] = v] for a string or [true]: an own property is written,
    except under the key [__proto__], whose setter on the prototype
    ignores a value that is neither an object nor [null]. *)
Definition setArg (args : Args) (k : string) (v : ArgVal) : Args :=
  if k =? "__proto__" then args else (k, v) :: args.

(** The own property [k] of [args], [None] when it has none. *)
Fixpoint getArg (args : Args) (k : string) : option ArgVal :=
  match args with
  | [] => None
  | (k', v) :: rest => if k' =? k then Some v else getArg rest k
  end.

(** What reading [args[k]] gives: the own property, else the property
    inherited from [Object.prototype], else [undefined]. *)
Inductive PropRead : Type :=
| OwnValue (v : ArgVal)
| InheritedValue
| UndefinedValue.

Definition readArg (args : Args) (k : string) : PropRead :=
  match getArg args k with
  | Some v => OwnValue v
  | None =>
      if existsb (String.eqb k) objectPrototypeKeys
      then InheritedValue else UndefinedValue
  end.

(** [s.indexOf(c)] for a character, [None] for -1. *)
Fixpoint indexOfChar (c : ascii) (s : string) : option nat :=
  match s with
  | EmptyString => None
  | String x r =>
      if Ascii.eqb x c then Some 0
      else match indexOfChar c r with
           | Some n => Some (S n)
           | None => None
           end
  end.

(** [s.slice(n)] and [s.slice(a, b)] for indices that are not negative. *)
Fixpoint sliceFrom (n : nat) (s : string) : string :=
  match n, s with
  | O, _ => s
  | S k, String _ r => sliceFrom k r
  | S _, EmptyString => EmptyString
  end.

Fixpoint takeChars (n : nat) (s : string) : string :=
  match n, s with
  | S k, String c r => String c (takeChars k r)
  | _, _ => EmptyString
  end.

Definition sliceStr (a b : nat) (s : string) : string :=
  takeChars (b - a) (sliceFrom a s).

(** The loop of [parseArgs], lines 9-24, on the tokens from index [i]
    on; a token used as a value is passed over. *)
Fixpoint parseArgsFrom (argv : list string) (args : Args) : Args :=
  match argv with
  | [] => args
  | token :: rest =>
      if startsWith token "--" then
        match indexOfChar "=" token with
        | Some eq =>
            parseArgsFrom rest
              (setArg args (sliceStr 2 eq token) (ArgStr (sliceFrom (eq + 1) token)))
        | None =>
            match rest with
            | next :: rest' =>
                if negb (startsWith next "--")
                then parseArgsFrom rest' (setArg args (sliceFrom 2 token) (ArgStr next))
                else parseArgsFrom rest (setArg args (sliceFrom 2 token) ArgTrue)
            | [] => parseArgsFrom rest (setArg args (sliceFrom 2 token) ArgTrue)
            end
        end
      else parseArgsFrom rest args
  end.

(** [parseArgs(argv)], lines 7-26. *)
Definition parseArgs (argv : list string) : Args := parseArgsFrom argv [].

(** [process.env] *)
Definition Env : Type := string -> option string.

Definition argJs (o : option ArgVal) : JsVal :=
  match o with
  | Some (ArgStr s) => VStr s
  | Some ArgTrue => VBool true
  | None => VUndef
  end.

(** The digits at the start of [s] as a number, with how many there
    are. *)
Fixpoint leadingDigits (s : string) (acc : Z) (count : nat) : Z * nat :=
  match s with
  | EmptyString => (acc, count)
  | String c r =>
      if isDigit c
      then leadingDigits r (10 * acc + (Z.of_nat (nat_of_ascii c) - 48)) (S count)
      else (acc, count)
  end.

(** [parseInt(s, 10)], [None] for [NaN]: white space, a sign, then the
    longest run of digits.  The value is exact; the double that
    JavaScript returns equals it below 2^53. *)
Definition parseInt10 (s : string) : option Z :=
  let t := trimStart s in
  let (negative, body) :=
    match t with
    | String c r =>
        if Ascii.eqb c "-" then (true, r)
        else if Ascii.eqb c "+" then (false, r)
        else (false, t)
    | EmptyString => (false, t)
    end in
  match leadingDigits body 0 0 with
  | (_, O) => None
  | (n, S _) => Some (if negative then (- n)%Z else n)
  end.

(** [parseInt(String(v), 10) || 0] *)
Definition intOrZero (v : JsVal) : Z :=
  match parseInt10 (toStr v) with
  | Some n => n
  | None => 0%Z
  end.

(** The settings of lines 62-78.  None of the six keys read from
    [args] names a property of [Object.prototype], so reading them gives
    the own property or [undefined]. *)
Record Config : Type := mkConfig {
  cfgUrl : JsVal;
  cfgSelector : JsVal;
  cfgLoginUrl : JsVal;
  cfgCrawlSitemap : bool;
  cfgMaxProducts : Z;
  cfgHeadless : bool
}.

Definition resolveConfig (args : Args) (env : Env) : Config :=
  mkConfig
    (jsOr (argJs (getArg args "url")) (optStr (env "TARGET_URL")))
    (jsOr (argJs (getArg args "selector")) (optStr (env "SELECTOR")))
    (jsOr (argJs (getArg args "loginUrl")) (optStr (env "LOGIN_URL")))
    (toLowerCase
       (toStr (match getArg args "crawlSitemap" with
               | Some v => argJs (Some v)
               | None => jsOr (optStr (env "CRAWL_SITEMAP")) (VStr "false")
               end)) =? "true")
    (match getArg args "maxProducts" with
     | Some v => intOrZero (argJs (Some v))
     | None => intOrZero (jsOr (optStr (env "MAX_PRODUCTS")) (VStr "0"))
     end)
    (match getArg args "headless" with
     | Some v => toLowerCase (toStr (argJs (Some v))) =? "true"
     | None => toLowerCase (toStr (jsOr (optStr (env "HEADLESS")) (VStr "false"))) =? "true"
     end).

(** The test of line 81: the run stops with the usage message. *)
Definition usageError (cfg : Config) : bool :=
  negb (cfgCrawlSitemap cfg) &&
  (negb (truthy (cfgUrl cfg)) || negb (truthy (cfgSelector cfg))).

(** The sitemap branch for the [url] of the settings, lines 102-376.
    After a bare [--url] the value is [true], and [trim] on line 103 is
    not a function of it: the error reaches the handler of line 403
    before anything is fetched. *)
Definition sitemapBranch (cfg : Config) (fetch : string -> option string)
    (web : Web) : option Run :=
  match cfgUrl cfg with
  | VBool true => None
  | VStr u => sitemapMode fetch web (Some u) (cfgMaxProducts cfg)
  | _ => sitemapMode fetch web None (cfgMaxProducts cfg)
  end.

(* ================================================================= *)
(** ** The timestamp of the file name (lines 46-58) *)

(** What [new Date()] reports: [getFullYear], [getMonth] (from 0),
    [getDate], [getHours], [getMinutes], [getSeconds]. *)
Record DateParts : Type := mkDateParts {
  fullYear : nat;
  month : nat;
  date : nat;
  hours : nat;
  minutes : nat;
  seconds : nat
}.

(** [String(n).padStart(2, '0')] *)
Definition pad (n : nat) : string :=
  let s := showNat (Z.of_nat n) in
  match String.length s with
  | 0 => "00"
  | 1 => "0" ++ s
  | _ => s
  end.

Definition timestamp (d : DateParts) : string :=
  showNat (Z.of_nat (fullYear d)) ++ pad (month d + 1) ++ pad (date d) ++
  "-" ++ pad (hours d) ++ pad (minutes d) ++ pad (seconds d).

(* ================================================================= *)
(** ** Single-page mode (lines 380-401) *)

(** A node matched by the selector, as the callback of [$$eval] reads
    it: its own [href], the [href] of [n.closest('a')], [innerText] and
    [textContent]. *)
Record Node : Type := mkNode {
  nodeHref : option string;
  closestLinkHref : option string;
  innerText : option string;
  nodeText : string
}.

Record LinkRow : Type := mkLinkRow {
  rowText : string;
  rowHref : string
}.

(** Lines 383-387. *)
Definition readNode (n : Node) : LinkRow :=
  let href :=
    jsOr (optStr (nodeHref n))
         (match closestLinkHref n with
          | Some h => VStr h
          | None => VNull
          end) in
  let text :=
    trim (toStr (jsOr (jsOr (optStr (innerText n)) (VStr (nodeText n)))
                      (VStr EmptyString))) in
  mkLinkRow text (toStr (jsOr href (VStr EmptyString))).

(** Lines 395-399. *)
Definition linkLine (r : LinkRow) : string :=
  str1 dquote ++ doubleQuotes (rowText r) ++ str1 dquote ++ "," ++
  str1 dquote ++ doubleQuotes (rowHref r) ++ str1 dquote.

(** The text given to [fs.writeFileSync] on line 400. *)
Definition singlePageFile (nodes : list Node) : string :=
  let results := map readNode nodes in
  ("text,href" ++ str1 newline) ++
  String.concat (str1 newline) (map linkLine results).

(* ================================================================= *)
(** ** Reference definitions used to state the properties *)

(** A sitemap document seen as its [<loc>] elements: each entry is the
    text that precedes an element and the element's text; [tail] follows
    the last element. *)
Definition locElement (t : string) : string := "<loc>" ++ t ++ "</loc>".

Fixpoint sitemapDoc (items : list (string * string)) (tail : string) : string :=
  match items with
  | [] => tail
  | (sep, t) :: rest => sep ++ locElement t ++ sitemapDoc rest tail
  end.

(** What may follow a stretch of text between two elements: nothing, or
    a tag. *)
Definition tagOrEnd (r : string) : Prop :=
  r = EmptyString \/ exists r', r = String "<" r'.

(** The texts of the [<loc>] elements, in document order. *)
Definition locTexts (items : list (string * string)) : list string :=
  map snd items.

(** Position of the first occurrence of [u] in [l] ([length l] if none). *)
Fixpoint firstIndex (u : string) (l : list string) : nat :=
  match l with
  | [] => 0
  | x :: r => if x =? u then 0 else S (firstIndex u r)
  end.

(** The records of the URLs whose navigation and extraction succeed, in
    the order of the URLs. *)
Definition successes (web : Web) (urls : list string) : list Extracted :=
  flat_map (fun u => match web u with
                     | Loaded pg => [extract pg]
                     | _ => []
                     end) urls.

(** One terminated CSV row per record. *)
Definition rowsText (rs : list Extracted) : string :=
  String.concat EmptyString (map (fun r => csvLine r ++ str1 newline) rs).

(** The part of [s] after its last slash. *)
Definition isLastSegmentOf (seg s : string) : Prop :=
  includes seg "/" = false /\ exists pre, s = pre ++ "/" ++ seg.


(** The product URLs in the order the inner loop of lines 136-138 meets
    them, over the sub-sitemaps visited. *)
Fixpoint seenUrls (fetch : string -> option string) (sitemaps : list string)
    : list string :=
  match sitemaps with
  | [] => []
  | sm :: rest =>
      match fetch sm with
      | Some x => (filter isProductUrl (extractLocs x) ++ seenUrls fetch rest)%list
      | None => []
      end
  end.

(** [urls] holds each URL of [seen] once, ordered by first occurrence in
    [seen], and none of its entries is empty or made of white space. *)
Definition firstSeenSet (seen urls : list string) : Prop :=
  NoDup urls /\
  (forall u, In u urls <-> In u seen) /\
  StronglySorted lt (map (fun u => firstIndex u seen) urls) /\
  Forall (fun u => u <> EmptyString /\ trim u <> EmptyString) urls.

(** The invariant of the set while the discovery loops run: [set] holds
    the URLs met so far, in the order they were first met. *)
Definition setOf (seen set : list string) : Prop :=
  (forall u, In u set <-> In u seen) /\
  StronglySorted lt (map (fun u => firstIndex u seen) set).

(** [b] keeps every field that is filled in [a]. *)
Definition keepsFilled (a b : Extracted) : Prop :=
  (name a <> EmptyString -> name b = name a) /\
  (sku a <> EmptyString -> sku b = sku a) /\
  (truthy (price a) = true -> price b = price a) /\
  (availability a <> EmptyString -> availability b = availability a).

(** The same, where the availability may instead have become
    [Discontinued] because the name of [r] carries the marker. *)
Definition keptUpToOverride (a r : Extracted) : Prop :=
  (name a <> EmptyString -> name r = name a) /\
  (sku a <> EmptyString -> sku r = sku a) /\
  (truthy (price a) = true -> price r = price a) /\
  (availability a <> EmptyString ->
     availability r = availability a \/
     (availability r = "Discontinued" /\
      includes (toLowerCase (name r)) "[discontinued]" = true)).

(** The number a string of decimal digits denotes, read from the left
    with [a] for the digits already read. *)
Fixpoint decimalFrom (a : Z) (s : string) : Z :=
  match s with
  | EmptyString => a
  | String c r => decimalFrom (10 * a + (Z.of_nat (nat_of_ascii c) - 48)) r
  end.

Definition decimalValue (s : string) : Z := decimalFrom 0 s.

(** A reader of quoted CSV, to state that what the sink writes can be
    read back.  It is a three-state machine: at the start of a field, a
    double quote is expected; inside a field a double quote either ends
    the field or, doubled, stands for itself; after a field come a
    comma, a line feed or the end of the text. *)
Inductive CsvState : Type :=
| FieldStart
| InField
| AfterQuote.

Fixpoint readCsv (s : string) (state : CsvState) (field : string)
    (row : list string) (rows : list (list string)) : option (list (list string)) :=
  match s with
  | EmptyString =>
      match state with
      | FieldStart => match row with [] => Some rows | _ => None end
      | InField => None
      | AfterQuote => Some (rows ++ [row ++ [field]])%list
      end
  | String c r =>
      match state with
      | FieldStart =>
          if Ascii.eqb c dquote then readCsv r InField EmptyString row rows
          else None
      | InField =>
          if Ascii.eqb c dquote then readCsv r AfterQuote field row rows
          else readCsv r InField (field ++ str1 c) row rows
      | AfterQuote =>
          if Ascii.eqb c dquote then readCsv r InField (field ++ str1 c) row rows
          else if Ascii.eqb c "," then readCsv r FieldStart EmptyString (row ++ [field])%list rows
          else if Ascii.eqb c newline
               then readCsv r FieldStart EmptyString [] (rows ++ [row ++ [field]])%list
          else None
      end
  end.

Definition parseCsv (s : string) : option (list (list string)) :=
  readCsv s FieldStart EmptyString [] [].



(** One error line for each URL of the list that does not load. *)
Definition failures (web : Web) (urls : list string) : list ErrorLine :=
  flat_map (fun u => match web u with
                     | Loaded _ => []
                     | NavigationFails m | EvaluationFails m => [ScrapeFailed u m]
                     end) urls.

(** [n] copies of a character. *)
Fixpoint repeatChar (c : ascii) (n : nat) : string :=
  match n with
  | O => EmptyString
  | S k => String c (repeatChar c k)
  end.

(** No character of [s] is white space. *)
Fixpoint noWhite (s : string) : bool :=
  match s with
  | EmptyString => true
  | String c r => negb (isWhite c) && noWhite r
  end.

(** Every character of [s] is a decimal digit. *)
Fixpoint allDigits (s : string) : bool :=
  match s with
  | EmptyString => true
  | String c r => isDigit c && allDigits r
  end.

(** A signed decimal numeral. *)
Definition showInt (z : Z) : string :=
  if (z <? 0)%Z then "-" ++ showNat (Z.abs z) else showNat z.

(** [s] begins with a decimal digit; [s] begins with a dot and a
    decimal digit. *)
Definition startsWithDigit (s : string) : bool :=
  match s with
  | String c _ => isDigit c
  | EmptyString => false
  end.

Definition startsWithFraction (s : string) : bool :=
  match s with
  | String d r => Ascii.eqb d "." && startsWithDigit r
  | EmptyString => false
  end.

(** Some character of [s] is a decimal digit. *)
Fixpoint anyDigit (s : string) : bool :=
  match s with
  | EmptyString => false
  | String c r => isDigit c || anyDigit r
  end.

(** A script of the page from which [scanScripts] takes nothing: it
    does not parse, or [pickProduct] throws on it or finds no Product. *)
Definition yieldsNothing (pg : Page) (script : option JsVal) : Prop :=
  match script with
  | None => True
  | Some j => pickProduct pg j = Throw \/ pickProduct pg j = Ret None
  end.

(* ================================================================= *)
(** ** Sample inputs *)

Definition noElements : Selector -> option Element := fun _ => None.

Definition textElement (t : string) : Element := mkElement t None.

(** A page with no product data at all. *)
Definition barePage : Page :=
  mkPage (fun s => s) [] None "Shop" noElements None None false None.

(** A JSON-LD Product. *)
Definition ldProduct (ldName ldSku : string) (offers : JsVal) : JsVal :=
  VObj [("@context", VStr "https://schema.org"); ("@type", VStr "Product");
        ("name", VStr ldName); ("sku", VStr ldSku); ("offers", offers)].

Definition ldOffer (ldPrice : JsVal) (ldAvailability : string) : JsVal :=
  VObj [("@type", VStr "Offer"); ("price", ldPrice);
        ("availability", VStr ldAvailability)].

(** Structured data gives every field; the document shows another
    price, another stock text and another title. *)
Definition widgetPage : Page :=
  mkPage (fun s => s)
    [None; Some (ldProduct "Widget" "W-1"
                   (VArr [ldOffer (VNum "19.99") "https://schema.org/InStock"]))]
    None "Widget | Shop"
    (fun s => match s with
              | SelH1 => Some (textElement "Another title")
              | SelPrice => Some (textElement "GBP 25.00")
              | SelAvailability => Some (textElement "Sold out")
              | _ => None
              end)
    None None false (Some "OTHER-SKU").




(** A Shopify product with one variant. *)
Definition oneVariant (vName vSku : string) (cents : Z) : ShopifyProduct :=
  mkShopifyProduct (Some "Boards") (Some "widget-red")
    [mkVariant (Some vName) (Some vSku) (Some cents)].

(** The JSON-LD Product has neither name nor SKU nor offers; Shopify
    metadata names the variant; the document has no [h1]. *)
Definition namelessLdPage : Page :=
  mkPage (fun s => s)
    [Some (VObj [("@type", VStr "Product"); ("name", VStr EmptyString)])]
    (Some (oneVariant "Widget - Red" "W-RED" 1999))
    "Widget | Shop" noElements None None false None.

(** The same metadata with no JSON-LD at all. *)
Definition shopifyOnlyPage : Page :=
  mkPage (fun s => s) []
    (Some (oneVariant "Widget - Red" "W-RED" 1999))
    "Widget | Shop" noElements None None false None.

(** A variant given away: its price is 0. *)
Definition freeSamplePage : Page :=
  mkPage (fun s => s) []
    (Some (oneVariant "Free sample" "FREE-1" 0))
    "Free sample" noElements None None false None.

(** A name with a double quote in it. *)
Definition obrienName : string := "O" ++ String dquote "Brien".

Definition obrienPage : Page :=
  mkPage (fun s => s)
    [Some (ldProduct obrienName "OB-1" (ldOffer (VNum "12") "InStock"))]
    None "Shop" noElements None None false None.

(** A shop of [n] products listed in two product sitemaps that overlap,
    beside a sitemap of pages. *)
Definition demoProductUrl (k : nat) : string :=
  "https://thepihut.com/products/p" ++ showNat (Z.of_nat k).

Definition demoUrlset (ks : list nat) : string :=
  "<urlset>" ++
  String.concat EmptyString
    (map (fun k => "<url>" ++ locElement (demoProductUrl k) ++
                   "<lastmod>2024-01-01</lastmod></url>") ks) ++
  "</urlset>".

Definition demoIndex : string :=
  "<sitemapindex>" ++
  "<sitemap>" ++ locElement "https://thepihut.com/sitemap_products_1.xml" ++ "</sitemap>" ++
  "<sitemap>" ++ locElement "https://thepihut.com/sitemap_pages_1.xml" ++ "</sitemap>" ++
  "<sitemap>" ++ locElement "https://thepihut.com/sitemap_products_2.xml" ++ "</sitemap>" ++
  "</sitemapindex>".

Definition demoFetch (u : string) : option string :=
  if u =? "https://thepihut.com/sitemap.xml" then Some demoIndex
  else if u =? "https://thepihut.com/sitemap_products_1.xml"
       then Some (demoUrlset (seq 1 12))
  else if u =? "https://thepihut.com/sitemap_products_2.xml"
       then Some (demoUrlset (seq 9 12))
  else None.

Definition demoUrls : list string := map demoProductUrl (seq 1 20).

(** Product 3 times out, product 7 breaks the extractor, the others
    load. *)
Definition demoWeb : Web := fun u =>
  if u =? demoProductUrl 3 then NavigationFails "Timeout 60000ms exceeded"
  else if u =? demoProductUrl 7 then EvaluationFails "document.body is null"
  else if u =? demoProductUrl 2 then Loaded obrienPage
  else Loaded widgetPage.

(** Nothing loads. *)
Definition deadWeb : Web := fun _ => NavigationFails "net::ERR_CONNECTION_REFUSED".

(* ================================================================= *)
(** * Properties *)

(** ** Strings *)

Lemma append_assoc (a b c : string) : (a ++ b) ++ c = a ++ (b ++ c).
Proof.
  induction a as [|x a IH]; simpl; [reflexivity | now rewrite IH].
Qed.

Lemma append_empty_r (a : string) : a ++ EmptyString = a.
Proof.
  induction a as [|x a IH]; simpl; [reflexivity | now rewrite IH].
Qed.

Lemma append_length (a b : string) :
  String.length (a ++ b) = String.length a + String.length b.
Proof.
  induction a as [|x a IH]; simpl; [reflexivity | now rewrite IH].
Qed.

Lemma stripPrefix_app (p r : string) : stripPrefix p (p ++ r) = Some r.
Proof.
  induction p as [|x p IH]; simpl; [reflexivity|].
  now rewrite Ascii.eqb_refl.
Qed.

Lemma includes_cons_false c r sub :
  includes (String c r) sub = false ->
  startsWith (String c r) sub = false /\ includes r sub = false.
Proof.
  simpl. intros H. now apply orb_false_elim in H.
Qed.

(** ** The [<loc>] scanner *)

Lemma startsWith_cons (a c : ascii) (p r : string) :
  startsWith (String c r) (String a p) = Ascii.eqb a c && startsWith r p.
Proof.
  unfold startsWith. cbn [stripPrefix]. now destruct (Ascii.eqb a c).
Qed.

Lemma includes_char_cons (a c : ascii) (r : string) :
  includes (String c r) (str1 a) = Ascii.eqb a c || includes r (str1 a).
Proof.
  cbn [includes]. unfold str1. rewrite startsWith_cons.
  unfold startsWith. cbn [stripPrefix]. now rewrite andb_true_r.
Qed.

Lemma execLocs_skip (a r : string) :
  execLocs (String.length a) (a ++ r) = execLocs 0 r.
Proof.
  induction a as [|x a IH]; simpl; [reflexivity | exact IH].
Qed.

Lemma spanNot_text (t r : string) :
  includes t "<" = false ->
  spanNot "<" (t ++ String "<" r) = (t, String "<" r).
Proof.
  induction t as [|c t IH]; intros H.
  - reflexivity.
  - change "<" with (str1 "<") in H. rewrite includes_char_cons in H.
    apply orb_false_elim in H. destruct H as [Hc Ht].
    cbn [append spanNot]. rewrite Ascii.eqb_sym, Hc.
    now rewrite (IH Ht).
Qed.

Lemma matchLocAt_element (t r : string) :
  t <> EmptyString -> includes t "<" = false ->
  matchLocAt (locElement t ++ r) = Some (t, 5 + String.length t + 6).
Proof.
  intros Hne Hlt. unfold matchLocAt, locElement.
  rewrite append_assoc, stripPrefix_app, append_assoc.
  change ("</loc>" ++ r) with (String "<" ("/loc>" ++ r)).
  rewrite (spanNot_text _ _ Hlt).
  destruct t; [congruence|]. reflexivity.
Qed.

Lemma execLocs_element (t r : string) :
  t <> EmptyString -> includes t "<" = false ->
  execLocs 0 (locElement t ++ r) = t :: execLocs 0 r.
Proof.
  intros Hne Hlt.
  pose proof (matchLocAt_element t r Hne Hlt) as Hm.
  remember (locElement t ++ r) as s eqn:Hs.
  assert (Hs' : s = String "<" ("loc>" ++ t ++ "</loc>" ++ r)).
  { subst s. unfold locElement. simpl. rewrite append_assoc. reflexivity. }
  rewrite Hs' in *. cbn [execLocs]. rewrite Hm. f_equal.
  replace (5 + String.length t + 6 - 1) with (String.length ("loc>" ++ t ++ "</loc>")).
  - rewrite <- execLocs_skip with (a := "loc>" ++ t ++ "</loc>").
    now rewrite !append_assoc.
  - rewrite !append_length. simpl. lia.
Qed.

Lemma execLocs_empty_element (r : string) :
  execLocs 0 (locElement EmptyString ++ r) = execLocs 0 r.
Proof. reflexivity. Qed.

(** No match begins inside a stretch of text without the opening tag,
    when what follows is empty or begins with a tag. *)
Lemma stripPrefix_straddle (p : string) :
  forall sep r, p <> EmptyString -> includes p "<" = false -> tagOrEnd r ->
  stripPrefix p sep = None -> stripPrefix p (sep ++ r) = None.
Proof.
  induction p as [|a p IH]; intros sep r Hp Hlt Hr Hs; [congruence|].
  change "<" with (str1 "<") in Hlt. rewrite includes_char_cons in Hlt.
  apply orb_false_elim in Hlt. destruct Hlt as [Ha Hlt].
  destruct sep as [|c sep].
  - destruct Hr as [-> | [r' ->]]; [reflexivity|].
    cbn [append stripPrefix]. now rewrite Ascii.eqb_sym, Ha.
  - cbn [append stripPrefix] in *.
    destruct (Ascii.eqb a c); [|reflexivity].
    destruct p as [|b p]; [discriminate|].
    apply IH; [congruence | exact Hlt | exact Hr | exact Hs].
Qed.

Lemma stripPrefix_loc_straddle (sep r : string) :
  sep <> EmptyString -> startsWith sep "<loc>" = false -> tagOrEnd r ->
  stripPrefix "<loc>" (sep ++ r) = None.
Proof.
  intros Hne Hs Hr. destruct sep as [|c sep]; [congruence|].
  change "<loc>" with (String "<" "loc>") in *.
  rewrite startsWith_cons in Hs. cbn [append]. 
  change (stripPrefix (String "<" "loc>") (String c (sep ++ r)))
    with (if Ascii.eqb "<" c then stripPrefix "loc>" (sep ++ r) else None).
  destruct (Ascii.eqb "<" c); [|reflexivity].
  apply stripPrefix_straddle; [discriminate | reflexivity | exact Hr |].
  unfold startsWith in Hs. cbn [andb] in Hs.
  destruct (stripPrefix "loc>" sep); [discriminate | reflexivity].
Qed.

Lemma execLocs_separator (sep r : string) :
  includes sep "<loc>" = false -> tagOrEnd r ->
  execLocs 0 (sep ++ r) = execLocs 0 r.
Proof.
  intros Hs Hr. induction sep as [|c sep IH]; [reflexivity|].
  apply includes_cons_false in Hs. destruct Hs as [Hc Hs].
  change (String c sep ++ r) with (String c (sep ++ r)).
  cbn [execLocs].
  assert (Hm : matchLocAt (String c (sep ++ r)) = None).
  { unfold matchLocAt.
    change (String c (sep ++ r)) with (String c sep ++ r).
    rewrite stripPrefix_loc_straddle; [reflexivity | congruence | exact Hc | exact Hr]. }
  rewrite Hm. now apply IH.
Qed.

Lemma tagOrEnd_doc t r : tagOrEnd (locElement t ++ r).
Proof. right. eexists. reflexivity. Qed.

Lemma extractLocs_doc (items : list (string * string)) (tail : string) :
  Forall (fun it => includes (fst it) "<loc>" = false /\
                    includes (snd it) "<" = false) items ->
  includes tail "<loc>" = false ->
  extractLocs (sitemapDoc items tail) = filter nonEmpty (locTexts items).
Proof.
  intros Hitems Htail. unfold extractLocs.
  induction Hitems as [|[sep t] items [Hsep Ht] _ IH]; cbn [sitemapDoc locTexts map filter].
  - rewrite <- (append_empty_r tail).
    rewrite execLocs_separator; [reflexivity | exact Htail | now left].
  - cbn [fst snd] in *.
    rewrite execLocs_separator; [| exact Hsep | apply tagOrEnd_doc].
    destruct t as [|c t].
    + rewrite execLocs_empty_element. exact IH.
    + rewrite execLocs_element; [| discriminate | exact Ht].
      cbn [nonEmpty]. f_equal. exact IH.
Qed.

(** ** The ordered set of product URLs *)

Lemma setHas_In (s : list string) (u : string) : setHas s u = true <-> In u s.
Proof.
  unfold setHas. rewrite existsb_exists. split.
  - intros [x [Hx He]]. apply String.eqb_eq in He. now subst.
  - intros H. exists u. split; [exact H | apply String.eqb_refl].
Qed.

Lemma firstIndex_lt (u : string) (l : list string) :
  In u l -> firstIndex u l < List.length l.
Proof.
  induction l as [|x l IH]; intros H; [contradiction|].
  cbn [firstIndex List.length]. destruct (String.eqb_spec x u) as [_|Hne]; [lia|].
  destruct H as [H|H]; [congruence|]. specialize (IH H). lia.
Qed.

Lemma firstIndex_app_in (u : string) (l r : list string) :
  In u l -> firstIndex u (l ++ r) = firstIndex u l.
Proof.
  induction l as [|x l IH]; intros H; [contradiction|].
  cbn [firstIndex app]. destruct (String.eqb_spec x u) as [_|Hne]; [reflexivity|].
  destruct H as [H|H]; [congruence|]. now rewrite IH.
Qed.

Lemma firstIndex_app_new (u : string) (l : list string) :
  ~ In u l -> firstIndex u (l ++ [u]) = List.length l.
Proof.
  induction l as [|x l IH]; intros H; cbn [firstIndex app List.length].
  - now rewrite String.eqb_refl.
  - destruct (String.eqb_spec x u) as [He|Hne].
    + exfalso. apply H. now left.
    + rewrite IH; [reflexivity|]. intros Hin. apply H. now right.
Qed.

Lemma StronglySorted_snoc (l : list nat) (m : nat) :
  StronglySorted lt l -> Forall (fun x => x < m) l ->
  StronglySorted lt (l ++ [m]).
Proof.
  induction 1 as [|x l Hs IH Hx]; intros Hm; cbn [app].
  - constructor; constructor.
  - inversion Hm; subst. constructor; [now apply IH|].
    apply Forall_app. split; [exact Hx | now constructor].
Qed.

Lemma StronglySorted_map_NoDup (f : string -> nat) (l : list string) :
  StronglySorted lt (map f l) -> NoDup l.
Proof.
  induction l as [|x l IH]; intros H; [constructor|].
  cbn [map] in H. apply StronglySorted_inv in H. destruct H as [Hs Hx].
  constructor; [|now apply IH].
  intros Hin. rewrite Forall_forall in Hx.
  specialize (Hx (f x) (in_map f _ _ Hin)). lia.
Qed.

Lemma setOf_empty : setOf [] [].
Proof. split; [tauto | constructor]. Qed.

Lemma setOf_add (seen set : list string) (u : string) :
  setOf seen set -> setOf (seen ++ [u]) (setAdd set u).
Proof.
  intros [Hin Hs].
  assert (Hmap : map (fun x => firstIndex x (seen ++ [u])) set =
                 map (fun x => firstIndex x seen) set).
  { apply map_ext_in. intros x Hx. apply firstIndex_app_in. now apply Hin. }
  unfold setAdd. destruct (setHas set u) eqn:Hu.
  - apply setHas_In in Hu. split.
    + intros x. rewrite in_app_iff, Hin. cbn [In]. split; [tauto|].
      intros [H|[<-|[]]]; [exact H | now apply Hin].
    + now rewrite Hmap.
  - assert (Hnot : ~ In u seen).
    { intros H. apply Hin in H. apply setHas_In in H. congruence. }
    split.
    + intros x. rewrite !in_app_iff, Hin. tauto.
    + rewrite map_app, Hmap. cbn [map]. rewrite firstIndex_app_new by exact Hnot.
      apply StronglySorted_snoc; [exact Hs|].
      apply Forall_forall. intros n Hn. apply in_map_iff in Hn.
      destruct Hn as [x [<- Hx]]. apply firstIndex_lt. now apply Hin.
Qed.

Lemma setOf_addProductUrls (urls seen set : list string) :
  setOf seen set ->
  setOf (seen ++ filter isProductUrl urls) (addProductUrls set urls).
Proof.
  revert seen set. induction urls as [|u urls IH]; intros seen set H.
  - cbn. now rewrite app_nil_r.
  - cbn [filter]. unfold addProductUrls. cbn [fold_left].
    fold (addProductUrls (if isProductUrl u then setAdd set u else set) urls).
    destruct (isProductUrl u).
    + replace (seen ++ u :: filter isProductUrl urls)%list
        with ((seen ++ [u]) ++ filter isProductUrl urls)%list
        by (now rewrite <- app_assoc).
      apply IH. now apply setOf_add.
    + now apply IH.
Qed.

Lemma setOf_visitSitemaps (fetch : string -> option string) (sitemaps : list string) :
  forall seen set result,
  setOf seen set ->
  visitSitemaps fetch sitemaps set = Some result ->
  setOf (seen ++ seenUrls fetch sitemaps) result.
Proof.
  induction sitemaps as [|sm rest IH]; intros seen set result H Hv.
  - cbn in *. injection Hv as <-. now rewrite app_nil_r.
  - cbn [visitSitemaps seenUrls] in *. destruct (fetch sm) as [x|]; [|discriminate].
    rewrite app_assoc. eapply IH; [|exact Hv].
    now apply setOf_addProductUrls.
Qed.

Lemma seenUrls_product (fetch : string -> option string) (sitemaps : list string) (u : string) :
  In u (seenUrls fetch sitemaps) -> isProductUrl u = true.
Proof.
  induction sitemaps as [|sm rest IH]; cbn [seenUrls]; [contradiction|].
  destruct (fetch sm) as [x|]; [|contradiction].
  rewrite in_app_iff, filter_In. tauto.
Qed.

(** A URL that holds a character other than white space survives
    [trim]. *)
Lemma includes_first_char (c : ascii) (p u : string) :
  includes u (String c p) = true -> includes u (str1 c) = true.
Proof.
  induction u as [|x u IH]; intros H.
  - discriminate.
  - rewrite includes_char_cons. cbn [includes] in H. rewrite startsWith_cons in H.
    destruct (Ascii.eqb c x); [reflexivity|]. cbn [andb orb] in *. now apply IH.
Qed.

Lemma trimStart_keeps (c : ascii) (u : string) :
  isWhite c = false -> includes u (str1 c) = true ->
  exists d r, trimStart u = String d r /\ isWhite d = false.
Proof.
  intros Hc. induction u as [|x u IH]; intros H; [discriminate|].
  cbn [trimStart]. destruct (isWhite x) eqn:Hx.
  - rewrite includes_char_cons in H.
    destruct (Ascii.eqb_spec c x) as [->|_]; [congruence|].
    now apply IH.
  - now exists x, u.
Qed.

Lemma trim_keeps (c : ascii) (u : string) :
  isWhite c = false -> includes u (str1 c) = true ->
  u <> EmptyString /\ trim u <> EmptyString.
Proof.
  intros Hc H. split; [now destruct u|].
  destruct (trimStart_keeps c u Hc H) as [d [r [Ht Hd]]].
  unfold trim. rewrite Ht. cbn [trimEnd]. rewrite Hd.
  destruct (trimEnd r); discriminate.
Qed.

Lemma productUrl_not_blank (u : string) :
  isProductUrl u = true -> u <> EmptyString /\ trim u <> EmptyString.
Proof.
  intros H. apply (trim_keeps "/"); [reflexivity|].
  now apply includes_first_char with (p := "products/").
Qed.

Lemma keepUrl_true (u : string) :
  u <> EmptyString /\ trim u <> EmptyString -> keepUrl u = true.
Proof.
  intros [Hu Ht]. unfold keepUrl. destruct u; [congruence|]. cbn [nonEmpty andb].
  apply negb_true_iff. now apply String.eqb_neq.
Qed.

Lemma filter_all {A : Type} (f : A -> bool) (l : list A) :
  (forall x, In x l -> f x = true) -> filter f l = l.
Proof.
  induction l as [|x l IH]; intros H; [reflexivity|].
  cbn [filter]. rewrite (H x (or_introl eq_refl)). f_equal.
  apply IH. intros y Hy. apply H. now right.
Qed.

Lemma discover_firstSeen fetch sitemapUrl urls :
  discover fetch sitemapUrl = Some urls ->
  exists xml,
    fetch sitemapUrl = Some xml /\
    firstSeenSet (seenUrls fetch (candidateSitemaps (extractLocs xml))) urls.
Proof.
  unfold discover. intros H.
  destruct (fetch sitemapUrl) as [xml|]; [|discriminate].
  exists xml. split; [reflexivity|].
  destruct (visitSitemaps fetch (candidateSitemaps (extractLocs xml)) [])
    as [set|] eqn:Hv; [|discriminate].
  injection H as <-.
  pose proof (setOf_visitSitemaps fetch _ [] [] set setOf_empty Hv) as [Hin Hs].
  cbn [app] in Hin, Hs.
  assert (Hprod : forall u, In u set -> u <> EmptyString /\ trim u <> EmptyString).
  { intros u Hu. apply productUrl_not_blank.
    apply (seenUrls_product fetch (candidateSitemaps (extractLocs xml))). now apply Hin. }
  rewrite filter_all by (intros u Hu; apply keepUrl_true; now apply Hprod).
  repeat split.
  - now apply StronglySorted_map_NoDup in Hs.
  - now apply Hin.
  - now apply Hin.
  - exact Hs.
  - apply Forall_forall. exact Hprod.
Qed.

(** ** The batch loop and the sink *)

Lemma validResults_scrape (web : Web) (batch : list string) :
  validResults (map (scrapeOne web) batch) = successes web (gotoUrls batch).
Proof.
  induction batch as [|u batch IH]; [reflexivity|].
  cbn [map gotoUrls filter]. unfold scrapeOne at 1.
  destruct (isBlank u); cbn [negb].
  - exact IH.
  - fold (gotoUrls batch). unfold successes. cbn [flat_map].
    fold (successes web (gotoUrls batch)).
    destruct (web u); cbn [validResults app]; now rewrite IH.
Qed.

Lemma concat_cons2 (sep x y : string) (l : list string) :
  String.concat sep (x :: y :: l) = x ++ sep ++ String.concat sep (y :: l).
Proof. reflexivity. Qed.

Lemma concat_empty_cons (x : string) (l : list string) :
  String.concat EmptyString (x :: l) = x ++ String.concat EmptyString l.
Proof.
  destruct l as [|y l].
  - cbn. now rewrite append_empty_r.
  - reflexivity.
Qed.

Lemma rowsText_cons (r : Extracted) (rs : list Extracted) :
  rowsText (r :: rs) = (csvLine r ++ str1 newline) ++ rowsText rs.
Proof. unfold rowsText. cbn [map]. apply concat_empty_cons. Qed.

Lemma rowsText_app (a b : list Extracted) :
  rowsText (a ++ b) = rowsText a ++ rowsText b.
Proof.
  induction a as [|r a IH]; [reflexivity|].
  cbn [app]. rewrite (rowsText_cons r (a ++ b)), (rowsText_cons r a), IH.
  symmetry. apply append_assoc.
Qed.

Lemma concat_lines (l : string) (ls : list string) :
  String.concat (str1 newline) (l :: ls) ++ str1 newline =
  String.concat EmptyString (map (fun x => x ++ str1 newline) (l :: ls)).
Proof.
  revert l. induction ls as [|l' ls IH]; intros l.
  - reflexivity.
  - rewrite concat_cons2. cbn [map]. rewrite concat_empty_cons.
    rewrite !append_assoc. f_equal. f_equal. apply IH.
Qed.

Lemma appendLines_rows (f : string) (rs : list Extracted) :
  appendLines f (map csvLine rs) = f ++ rowsText rs.
Proof.
  unfold appendLines. destruct rs as [|r rs].
  - cbn. now rewrite append_empty_r.
  - cbn [map List.length Nat.ltb Nat.leb]. f_equal.
    rewrite concat_lines. unfold rowsText.
    change (csvLine r :: map csvLine rs) with (map csvLine (r :: rs)).
    now rewrite map_map.
Qed.

Lemma processBatch_file (web : Web) (i limit : nat) (batch : list string) (st : Run) :
  file (processBatch web i limit batch st) =
  file st ++ rowsText (successes web (gotoUrls batch)).
Proof.
  unfold processBatch. cbn [file].
  now rewrite validResults_scrape, appendLines_rows.
Qed.

Lemma processBatch_attempted (web : Web) (i limit : nat) (batch : list string) (st : Run) :
  attempted (processBatch web i limit batch st) =
  (attempted st ++ gotoUrls batch)%list.
Proof. reflexivity. Qed.

Lemma firstn_plus {A : Type} (a b : nat) (l : list A) :
  firstn (a + b) l = (firstn a l ++ firstn b (skipn a l))%list.
Proof.
  revert l. induction a as [|a IH]; intros l; [reflexivity|].
  destruct l as [|x l]; cbn [Nat.add firstn skipn app].
  - now rewrite firstn_nil.
  - now rewrite IH.
Qed.

Lemma slice_step {A : Type} (i limit : nat) (l : list A) :
  i < limit ->
  slice i limit l =
  (slice i (Nat.min (i + BATCH_SIZE) limit) l ++ slice (i + BATCH_SIZE) limit l)%list.
Proof.
  intros Hi. unfold slice.
  destruct (Nat.le_gt_cases (i + BATCH_SIZE) limit) as [Hle|Hgt].
  - rewrite Nat.min_l by exact Hle.
    replace (limit - i) with ((i + BATCH_SIZE - i) + (limit - (i + BATCH_SIZE))) by lia.
    rewrite firstn_plus, skipn_skipn. do 3 f_equal. lia.
  - rewrite Nat.min_r by lia.
    replace (limit - (i + BATCH_SIZE)) with 0 by lia.
    cbn [firstn]. now rewrite app_nil_r.
Qed.

Lemma gotoUrls_app (a b : list string) :
  gotoUrls (a ++ b) = (gotoUrls a ++ gotoUrls b)%list.
Proof. apply filter_app. Qed.

Lemma successes_app (web : Web) (a b : list string) :
  successes web (a ++ b) = (successes web a ++ successes web b)%list.
Proof. apply flat_map_app. Qed.


(** With fuel for every turn the loop ends, having handed to [p.goto]
    the non-blank URLs of [productUrls.slice(i, limit)] and appended the
    rows of those that loaded. *)
Lemma batchLoop_ends (web : Web) (urls : list string) (limit : nat) :
  forall fuel i st,
  limit - i <= fuel ->
  exists st',
    batchLoop fuel web urls limit i st = Some st' /\
    attempted st' = (attempted st ++ gotoUrls (slice i limit urls))%list /\
    file st' = file st ++ rowsText (successes web (gotoUrls (slice i limit urls))).
Proof.
  induction fuel as [|fuel IH]; intros i st Hf.
  - assert (Hi : (i <? limit)%nat = false) by (apply Nat.ltb_ge; lia).
    cbn [batchLoop]. rewrite Hi. exists st. split; [reflexivity|].
    unfold slice. replace (limit - i) with 0 by lia. cbn.
    now rewrite app_nil_r, append_empty_r.
  - cbn [batchLoop]. destruct (Nat.ltb_spec i limit) as [Hi|Hi].
    + destruct (IH (i + BATCH_SIZE)
                   (processBatch web i limit
                      (slice i (Nat.min (i + BATCH_SIZE) limit) urls) st))
        as [st' [Hrun [Hatt Hfile]]].
      { unfold BATCH_SIZE. lia. }
      exists st'. split; [exact Hrun|].
      rewrite (slice_step i limit urls Hi), gotoUrls_app, successes_app, rowsText_app.
      rewrite Hatt, Hfile, processBatch_attempted, processBatch_file.
      now rewrite app_assoc, append_assoc.
    + exists st. split; [reflexivity|].
      unfold slice. replace (limit - i) with 0 by lia. cbn.
      now rewrite app_nil_r, append_empty_r.
Qed.

Lemma crawl_ends (web : Web) (urls : list string) (maxProducts : Z) :
  exists st,
    crawl web urls maxProducts = Some st /\
    attempted st = gotoUrls (firstn (limitOf maxProducts (List.length urls)) urls) /\
    file st = header ++ rowsText (successes web (attempted st)).
Proof.
  unfold crawl.
  destruct (batchLoop_ends web urls (limitOf maxProducts (List.length urls))
              (limitOf maxProducts (List.length urls)) 0
              (mkRun header []
                 [FoundProducts (List.length urls)
                    (limitOf maxProducts (List.length urls))]))
    as [st [Hrun [Hatt Hfile]]]; [lia|].
  rewrite Hrun. eexists. split; [reflexivity|].
  unfold slice in *. rewrite Nat.sub_0_r in *. cbn [skipn attempted file app] in *.
  split; [exact Hatt|]. now rewrite Hatt.
Qed.

Lemma gotoUrls_all (urls : list string) :
  Forall (fun u => u <> EmptyString /\ trim u <> EmptyString) urls ->
  gotoUrls urls = urls.
Proof.
  intros H. apply filter_all. intros u Hu.
  rewrite Forall_forall in H. destruct (H u Hu) as [Hne Ht].
  unfold isBlank. destruct u; [congruence|]. cbn [nonEmpty negb orb].
  apply negb_true_iff. now apply String.eqb_neq.
Qed.



(** ** The extractor: what each stage keeps *)

Lemma keepsFilled_refl (e : Extracted) : keepsFilled e e.
Proof. unfold keepsFilled. tauto. Qed.


Lemma nonEmpty_false (s : string) : nonEmpty s = false -> s = EmptyString.
Proof. destruct s; [reflexivity | discriminate]. Qed.

Lemma keepsFilled_trans (a b c : Extracted) :
  keepsFilled a b -> keepsFilled b c -> keepsFilled a c.
Proof.
  unfold keepsFilled.
  intros [Hn [Hs [Hp Ha]]] [Hn' [Hs' [Hp' Ha']]]. repeat split; intros H.
  - rewrite <- (Hn H). apply Hn'. now rewrite (Hn H).
  - rewrite <- (Hs H). apply Hs'. now rewrite (Hs H).
  - rewrite <- (Hp H). apply Hp'. now rewrite (Hp H).
  - rewrite <- (Ha H). apply Ha'. now rewrite (Ha H).
Qed.

Lemma shopifyStrategy_keeps (pg : Page) (e : Extracted) :
  exists e', shopifyStrategy pg (Some e) = Some e' /\ keepsFilled e e'.
Proof.
  unfold shopifyStrategy.
  destruct (negb (nonEmpty (sku e))) eqn:Hsku;
    [| exists e; split; [reflexivity | apply keepsFilled_refl]].
  destruct (shopifyMeta pg) as [sp|];
    [| exists e; split; [reflexivity | apply keepsFilled_refl]].
  destruct (sp_variants sp) as [|v vs];
    [exists e; split; [reflexivity | apply keepsFilled_refl]|].
  eexists. split; [reflexivity|].
  apply negb_true_iff, nonEmpty_false in Hsku.
  cbn [name sku price availability].
  destruct (negb (truthy (price e))) eqn:Hp; unfold keepsFilled;
    cbn [name sku price availability]; repeat split; try congruence.
  apply negb_true_iff in Hp. congruence.
Qed.

Lemma domName_keeps (pg : Page) (e : Extracted) : keepsFilled e (domName pg e).
Proof.
  unfold domName. destruct (nonEmpty (name e)) eqn:H; cbn [negb];
    [apply keepsFilled_refl|].
  apply nonEmpty_false in H.
  unfold keepsFilled; cbn [name sku price availability]. repeat split; congruence.
Qed.

Lemma domPrice_keeps (pg : Page) (e : Extracted) : keepsFilled e (domPrice pg e).
Proof.
  unfold domPrice. destruct (truthy (price e)) eqn:H; cbn [negb];
    [apply keepsFilled_refl|].
  unfold keepsFilled; cbn [name sku price availability]. repeat split; congruence.
Qed.

Lemma domAvailability_keeps (pg : Page) (e : Extracted) :
  keepsFilled e (domAvailability pg e).
Proof.
  unfold domAvailability. destruct (nonEmpty (availability e)) eqn:H; cbn [negb orb].
  - destruct (String.eqb_spec (availability e) EmptyString) as [He|_];
      [rewrite He in H; discriminate | apply keepsFilled_refl].
  - apply nonEmpty_false in H.
    unfold keepsFilled; cbn [name sku price availability]. repeat split; congruence.
Qed.

Lemma domSku_keeps (pg : Page) (e : Extracted) : keepsFilled e (domSku pg e).
Proof.
  unfold domSku. destruct (nonEmpty (sku e)) eqn:H; cbn [negb];
    [apply keepsFilled_refl|].
  apply nonEmpty_false in H.
  unfold keepsFilled; cbn [name sku price availability]. repeat split; congruence.
Qed.

Lemma domStrategy_keeps (pg : Page) (e : Extracted) :
  keepsFilled e (domStrategy pg e).
Proof.
  unfold domStrategy.
  eapply keepsFilled_trans; [apply domName_keeps|].
  eapply keepsFilled_trans; [apply domPrice_keeps|].
  eapply keepsFilled_trans; [apply domAvailability_keeps|].
  apply domSku_keeps.
Qed.


Lemma finalOverride_fields (e : Extracted) :
  name (finalOverride e) = name e /\
  sku (finalOverride e) = sku e /\
  price (finalOverride e) = price e /\
  (availability (finalOverride e) = availability e \/
   (availability (finalOverride e) = "Discontinued" /\
    includes (toLowerCase (name e)) "[discontinued]" = true)).
Proof.
  unfold finalOverride.
  destruct (nonEmpty (name e) && includes (toLowerCase (name e)) "[discontinued]")
    eqn:H; cbn [name sku price availability]; repeat split; auto.
  right. apply andb_true_iff in H. tauto.
Qed.


Lemma extract_keeps (pg : Page) (e : Extracted) :
  keepsFilled e (domStrategy pg (structuredRecord pg)) ->
  keptUpToOverride e (extract pg).
Proof.
  unfold keepsFilled, keptUpToOverride, extract.
  intros [Hn [Hs [Hp Ha]]].
  destruct (finalOverride_fields (domStrategy pg (structuredRecord pg)))
    as [Fn [Fs [Fp Fa]]].
  rewrite Fn, Fs, Fp. repeat split; auto.
  intros H. destruct Fa as [Fa|[Fa Fd]].
  - left. rewrite Fa. now apply Ha.
  - right. split; [exact Fa | exact Fd].
Qed.

(** ** Availability normalization *)

Lemma includes_slash_cons (c : ascii) (r : string) :
  includes (String c r) "/" = Ascii.eqb "/" c || includes r "/".
Proof. apply (includes_char_cons "/" c r). Qed.

Lemma split_no_slash (r : string) :
  includes r "/" = false -> split "/" r = [r].
Proof.
  induction r as [|c r IH]; intros H; [reflexivity|].
  rewrite includes_slash_cons in H. apply orb_false_elim in H. destruct H as [Hc Hr].
  cbn [split]. rewrite Ascii.eqb_sym, Hc. now rewrite (IH Hr).
Qed.

Lemma split_slash_two (r : string) :
  includes r "/" = true -> exists h x t, split "/" r = h :: x :: t.
Proof.
  induction r as [|c r IH]; intros H; [discriminate|].
  rewrite includes_slash_cons in H. cbn [split]. rewrite Ascii.eqb_sym.
  destruct (Ascii.eqb "/" c); cbn [orb] in H.
  - destruct (includes r "/") eqn:Hr.
    + destruct (IH eq_refl) as [h [x [t ->]]]. now eexists _, _, _.
    + rewrite (split_no_slash r Hr). now eexists _, _, _.
  - destruct (IH H) as [h [x [t ->]]]. now eexists _, _, _.
Qed.

Lemma pop_split_cons (c : ascii) (r : string) :
  pop (split "/" (String c r)) =
  if includes r "/" then pop (split "/" r)
  else if Ascii.eqb c "/" then r else String c r.
Proof.
  unfold pop. cbn [split]. destruct (includes r "/") eqn:Hr.
  - destruct (split_slash_two r Hr) as [h [x [t ->]]].
    destruct (Ascii.eqb c "/"); reflexivity.
  - rewrite (split_no_slash r Hr). destruct (Ascii.eqb c "/"); reflexivity.
Qed.

Lemma pop_split_last (s : string) :
  includes s "/" = true -> isLastSegmentOf (pop (split "/" s)) s.
Proof.
  induction s as [|c r IH]; intros H; [discriminate|].
  rewrite pop_split_cons. rewrite includes_slash_cons in H.
  destruct (includes r "/") eqn:Hr.
  - destruct (IH eq_refl) as [Hseg [pre Hpre]]. split; [exact Hseg|].
    exists (String c pre).
    change (String c r = String c (pre ++ "/" ++ pop (split "/" r))).
    f_equal. exact Hpre.
  - rewrite orb_false_r in H. rewrite Ascii.eqb_sym, H.
    split; [exact Hr|]. exists EmptyString.
    apply Ascii.eqb_eq in H. now subst c.
Qed.





Lemma toLowerCase_empty (s : string) :
  toLowerCase s = EmptyString -> s = EmptyString.
Proof. destruct s; [reflexivity | discriminate]. Qed.


(** ** The Shopify price *)

Lemma decimalFrom_cons (a : Z) (d : Z) (s : string) :
  (0 <= d < 10)%Z ->
  decimalFrom a (String (digitChar d) s) = decimalFrom (10 * a + d) s.
Proof.
  intros Hd. cbn [decimalFrom]. f_equal. unfold digitChar.
  rewrite nat_ascii_embedding by lia. lia.
Qed.

Lemma showDigits_value (fuel : nat) :
  forall n acc, (0 <= n < 2 ^ Z.of_nat fuel)%Z ->
  decimalFrom 0 (showDigits fuel n acc) = decimalFrom n acc.
Proof.
  induction fuel as [|fuel IH]; intros n acc Hn.
  - cbn in Hn. assert (n = 0%Z) by lia. now subst.
  - cbn [showDigits]. destruct (Z.ltb_spec n 10) as [Hlt|Hge].
    + rewrite decimalFrom_cons by (rewrite Z.mod_small; lia).
      rewrite Z.mod_small by lia. f_equal.
    + rewrite IH.
      * rewrite decimalFrom_cons by (apply Z.mod_pos_bound; lia).
        f_equal. rewrite (Z.div_mod n 10) at 3 by lia. reflexivity.
      * rewrite Nat2Z.inj_succ, Z.pow_succ_r in Hn by lia.
        split; [apply Z.div_pos; lia|].
        apply Z.div_lt_upper_bound; lia.
Qed.

Lemma showNat_value (n : Z) : (0 <= n)%Z -> decimalValue (showNat n) = n.
Proof.
  intros Hn. unfold decimalValue, showNat. rewrite showDigits_value; [reflexivity|].
  split; [exact Hn|].
  rewrite Nat2Z.inj_succ, Z2Nat.id by apply Z.log2_nonneg.
  destruct (Z.eq_dec n 0) as [->|Hne]; [reflexivity|].
  apply Z.log2_spec. lia.
Qed.




Lemma validResults_all_null (results : list (option Extracted)) :
  (forall r, In r results -> r = None) -> validResults results = [].
Proof.
  induction results as [|r rs IH]; intros H; [reflexivity|].
  rewrite (H r (or_introl eq_refl)). cbn [validResults].
  apply IH. intros r' Hr'. apply H. now right.
Qed.


Lemma cents_digits (a : Z) :
  (0 <= a)%Z ->
  (a = 100 * (a / 100) + 10 * ((a / 10) mod 10) + a mod 10)%Z.
Proof.
  intros Ha.
  pose proof (Z.div_mod a 10 ltac:(lia)) as H1.
  pose proof (Z.div_mod (a / 10) 10 ltac:(lia)) as H2.
  rewrite Z.div_div in H2 by lia. change (10 * 10)%Z with 100%Z in H2. lia.
Qed.

(* ================================================================= *)
(** * The claims *)

(** C1.  A field that the JSON-LD strategy, or the JSON-LD and Shopify
    strategies together, left filled is the same in the record the
    extractor returns: the Shopify strategy and the DOM fallbacks write
    only into empty fields.  In particular a price found in the
    structured data is never replaced by the price read from the
    document.  The one later change is the availability, which the final
    override sets to Discontinued when the name carries the marker. *)
Theorem filled_fields_kept (pg : Page) (e : Extracted) :
  jsonLdStrategy pg = Some e \/ shopifyStrategy pg (jsonLdStrategy pg) = Some e ->
  keptUpToOverride e (extract pg).
Proof.
  intros [H|H]; apply extract_keeps; unfold structuredRecord; rewrite H.
  - destruct (shopifyStrategy_keeps pg e) as [e' [He' Hk]]. rewrite He'.
    eapply keepsFilled_trans; [exact Hk | apply domStrategy_keeps].
  - apply domStrategy_keeps.
Qed.

Lemma filled_fields_kept_witness :
  (jsonLdStrategy widgetPage = Some (mkExtracted "Widget" "W-1" (VNum "19.99") "InStock")
   \/ shopifyStrategy widgetPage (jsonLdStrategy widgetPage)
      = Some (mkExtracted "Widget" "W-1" (VNum "19.99") "InStock")) /\
  keptUpToOverride (mkExtracted "Widget" "W-1" (VNum "19.99") "InStock")
                   (extract widgetPage).
Proof.
  split; [left; reflexivity | apply filled_fields_kept; left; reflexivity].
Defined.






(** C4 fails on the code.  The JSON-LD Product of this page has an empty
    name and no SKU, and the Shopify metadata names the first variant
    Widget - Red.  The Shopify strategy fills the SKU and the price and
    leaves the name empty, and with no [h1] the record ends without a
    name.  Without any JSON-LD the same metadata does give the name. *)
Theorem shopify_name_not_used :
  jsonLdStrategy namelessLdPage
    = Some (mkExtracted EmptyString EmptyString (VStr EmptyString) EmptyString) /\
  shopifyStrategy namelessLdPage (jsonLdStrategy namelessLdPage)
    = Some (mkExtracted EmptyString "W-RED" (VStr "19.99") EmptyString) /\
  name (extract namelessLdPage) = EmptyString /\
  name (extract shopifyOnlyPage) = "Widget - Red".
Proof. repeat split. Qed.

(** C5, as the code has it.  In a document made of [<loc>] elements
    whose texts hold no tag, set in text that never opens a [<loc>], the
    locations extracted are the texts of the elements that are not empty,
    in document order and with their duplicates; an element with an empty
    text gives no entry. *)
Theorem extractLocs_sitemapDoc (items : list (string * string)) (tail : string) :
  Forall (fun it => includes (fst it) "<loc>" = false /\
                    includes (snd it) "<" = false) items ->
  includes tail "<loc>" = false ->
  extractLocs (sitemapDoc items tail) = filter nonEmpty (locTexts items).
Proof. apply extractLocs_doc. Qed.

Lemma extractLocs_sitemapDoc_witness :
  (Forall (fun it => includes (fst it) "<loc>" = false /\
                     includes (snd it) "<" = false)
     [("<urlset><url>", "https://shop.example/products/a");
      ("</url><url>", EmptyString);
      ("<lastmod>2024</lastmod></url><url>", "https://shop.example/products/a")] /\
   includes "</url></urlset>" "<loc>" = false) /\
  extractLocs
    (sitemapDoc
       [("<urlset><url>", "https://shop.example/products/a");
        ("</url><url>", EmptyString);
        ("<lastmod>2024</lastmod></url><url>", "https://shop.example/products/a")]
       "</url></urlset>")
  = ["https://shop.example/products/a"; "https://shop.example/products/a"].
Proof.
  assert (H : Forall (fun it => includes (fst it) "<loc>" = false /\
                                includes (snd it) "<" = false)
     [("<urlset><url>", "https://shop.example/products/a");
      ("</url><url>", EmptyString);
      ("<lastmod>2024</lastmod></url><url>", "https://shop.example/products/a")]).
  { repeat constructor. }
  split; [split; [exact H | reflexivity]|].
  exact (extractLocs_sitemapDoc _ "</url></urlset>" H eq_refl).
Defined.

(** C5 as stated fails: the second [<loc>] of this document has an empty
    text and contributes no entry. *)
Lemma empty_loc_gives_no_entry :
  extractLocs
    (sitemapDoc [("<urlset><url>", "https://shop.example/products/a");
                 ("</url><url>", EmptyString)] "</url></urlset>")
  <> locTexts [("<urlset><url>", "https://shop.example/products/a");
               ("</url><url>", EmptyString)].
Proof. vm_compute. discriminate. Qed.

(** C6.  The product URLs that discovery returns hold no URL twice, even
    when sub-sitemaps repeat one; they hold exactly the product URLs
    met in the candidate sub-sitemaps, in the order each was first met;
    and none of them is empty or made of white space. *)
Theorem discover_ordered_set (fetch : string -> option string)
    (sitemapUrl : string) (urls : list string) :
  discover fetch sitemapUrl = Some urls ->
  exists xml,
    fetch sitemapUrl = Some xml /\
    firstSeenSet (seenUrls fetch (candidateSitemaps (extractLocs xml))) urls.
Proof. apply discover_firstSeen. Qed.

Lemma discover_ordered_set_witness :
  discover demoFetch (sitemapUrlOf None) = Some demoUrls /\
  exists xml,
    demoFetch (sitemapUrlOf None) = Some xml /\
    firstSeenSet (seenUrls demoFetch (candidateSitemaps (extractLocs xml))) demoUrls.
Proof.
  assert (H : discover demoFetch (sitemapUrlOf None) = Some demoUrls)
    by (vm_compute; reflexivity).
  split; [exact H | exact (discover_ordered_set _ _ _ H)].
Defined.



(** C8, as the code has it.  When the Shopify strategy fills the price
    from the first variant, a price in minor units that is an integer
    other than 0 (and below 2^52 in magnitude, where the double quotient
    is exact to the hundredth) gives that integer divided by 100 with
    exactly two decimals: a sign if it is negative, the decimal digits
    of the whole part, a dot and two digits.  A price of 0 counts as no
    price: like a missing price it gives the empty string. *)
Theorem shopify_price_two_decimals (pg : Page) (sp : ShopifyProduct)
    (v : Variant) (rest : list Variant) (extracted : option Extracted) :
  shopifyMeta pg = Some sp ->
  sp_variants sp = v :: rest ->
  match extracted with
  | None => True
  | Some e => sku e = EmptyString /\ truthy (price e) = false
  end ->
  exists e',
    shopifyStrategy pg extracted = Some e' /\
    (forall p : Z,
       v_price v = Some p -> p <> 0%Z -> (Z.abs p < 2 ^ 52)%Z ->
       price e' = VStr (centsToFixed2 p) /\
       exists whole d1 d2 : Z,
         centsToFixed2 p =
           (if (p <? 0)%Z then "-" else EmptyString) ++ showNat whole ++ "." ++
           String (digitChar d1) (str1 (digitChar d2)) /\
         decimalValue (showNat whole) = whole /\
         (0 <= d1 < 10)%Z /\ (0 <= d2 < 10)%Z /\
         Z.abs p = (100 * whole + 10 * d1 + d2)%Z) /\
    (v_price v = Some 0%Z \/ v_price v = None ->
     price e' = VStr EmptyString).
Proof.
  intros Hsp Hv Hex.
  assert (Hfilled : exists e',
            shopifyStrategy pg extracted = Some e' /\
            price e' = VStr (shopifyPrice v)).
  { unfold shopifyStrategy. rewrite Hsp, Hv.
    destruct extracted as [e|].
    - destruct Hex as [Hsku Htr]. rewrite Hsku. cbn [nonEmpty negb].
      cbn [price]. rewrite Htr. cbn [negb].
      eexists. split; reflexivity.
    - eexists. split; reflexivity. }
  destruct Hfilled as [e' [Hrun Hprice]].
  exists e'. split; [exact Hrun|]. rewrite Hprice. split.
  - intros p Hp Hnz _. unfold shopifyPrice. rewrite Hp.
    destruct (Z.eqb_spec p 0) as [|_]; [contradiction|].
    split; [reflexivity|].
    exists (Z.abs p / 100)%Z, ((Z.abs p / 10) mod 10)%Z, (Z.abs p mod 10)%Z.
    split; [reflexivity|].
    split; [apply showNat_value; apply Z.div_pos; lia|].
    split; [apply Z.mod_pos_bound; lia|].
    split; [apply Z.mod_pos_bound; lia|].
    apply cents_digits. lia.
  - intros [H|H]; unfold shopifyPrice; rewrite H; reflexivity.
Qed.

Lemma shopify_price_two_decimals_witness :
  (shopifyMeta shopifyOnlyPage = Some (oneVariant "Widget - Red" "W-RED" 1999) /\
   sp_variants (oneVariant "Widget - Red" "W-RED" 1999)
     = [mkVariant (Some "Widget - Red") (Some "W-RED") (Some 1999%Z)] /\
   v_price (mkVariant (Some "Widget - Red") (Some "W-RED") (Some 1999%Z)) = Some 1999%Z /\
   1999%Z <> 0%Z /\ (Z.abs 1999 < 2 ^ 52)%Z) /\
  centsToFixed2 1999 = "19.99" /\
  (exists e',
     shopifyStrategy shopifyOnlyPage None = Some e' /\
     price e' = VStr (centsToFixed2 1999)) /\
  (shopifyMeta freeSamplePage = Some (oneVariant "Free sample" "FREE-1" 0) /\
   sp_variants (oneVariant "Free sample" "FREE-1" 0)
     = [mkVariant (Some "Free sample") (Some "FREE-1") (Some 0%Z)] /\
   v_price (mkVariant (Some "Free sample") (Some "FREE-1") (Some 0%Z)) = Some 0%Z) /\
  (exists e',
     shopifyStrategy freeSamplePage None = Some e' /\
     price e' = VStr EmptyString).
Proof.
  assert (Hnz : 1999%Z <> 0%Z) by discriminate.
  assert (Hlt : (Z.abs 1999 < 2 ^ 52)%Z) by reflexivity.
  split; [repeat split; assumption|]. split; [reflexivity|]. split.
  - destruct (shopify_price_two_decimals shopifyOnlyPage
                (oneVariant "Widget - Red" "W-RED" 1999)
                (mkVariant (Some "Widget - Red") (Some "W-RED") (Some 1999%Z)) []
                None eq_refl eq_refl I) as [e' [Hrun [Hfmt _]]].
    exists e'. split; [exact Hrun|].
    exact (proj1 (Hfmt 1999%Z eq_refl Hnz Hlt)).
  - split; [repeat split|].
    destruct (shopify_price_two_decimals freeSamplePage
                (oneVariant "Free sample" "FREE-1" 0)
                (mkVariant (Some "Free sample") (Some "FREE-1") (Some 0%Z)) []
                None eq_refl eq_refl I) as [e' [Hrun [_ Hzero]]].
    exists e'. split; [exact Hrun|]. apply Hzero. left. reflexivity.
Defined.

(** C8 as stated fails: the variant of this page has the integer price
    0, the Shopify strategy builds the record, and its price is the empty
    string instead of 0.00. *)
Lemma zero_price_left_empty :
  shopifyMeta freeSamplePage = Some (oneVariant "Free sample" "FREE-1" 0) /\
  centsToFixed2 0 = "0.00" /\
  shopifyStrategy freeSamplePage (jsonLdStrategy freeSamplePage)
    = Some (mkExtracted "Free sample" "FREE-1" (VStr EmptyString) EmptyString) /\
  price (extract freeSamplePage) <> VStr (centsToFixed2 0).
Proof. repeat split. vm_compute. discriminate. Qed.



(** C10.  A batch in which every URL fails appends nothing: the file is
    the same after it as before it.  The file of a run is the header
    followed by one line-feed-terminated row per record, and every row
    starts with a double quote, so no row of the file is empty. *)
Theorem failed_batch_appends_nothing (web : Web) (i limit : nat)
    (batch : list string) (st : Run) (urls : list string) (maxProducts : Z) :
  ((forall u, In u batch -> scrapeOne web u = None) ->
   file (processBatch web i limit batch st) = file st) /\
  (exists st' rs,
     crawl web urls maxProducts = Some st' /\
     file st' = header ++ rowsText rs /\
     Forall (fun r => exists rest, csvLine r = String dquote rest) rs).
Proof.
  split.
  - intros H. unfold processBatch. cbn [file].
    rewrite validResults_all_null; [reflexivity|].
    intros r Hr. apply in_map_iff in Hr. destruct Hr as [u [<- Hu]]. now apply H.
  - destruct (crawl_ends web urls maxProducts) as [st' [Hrun [_ Hfile]]].
    exists st', (successes web (attempted st')).
    split; [exact Hrun|]. split; [exact Hfile|].
    apply Forall_forall. intros r _. eexists. reflexivity.
Qed.

Lemma failed_batch_appends_nothing_witness :
  (forall u, In u (firstn 10 demoUrls) -> scrapeOne deadWeb u = None) /\
  file (processBatch deadWeb 0 20 (firstn 10 demoUrls) (mkRun header [] [])) = header.
Proof.
  assert (H : forall u, In u (firstn 10 demoUrls) -> scrapeOne deadWeb u = None).
  { intros u _. unfold scrapeOne, deadWeb. now destruct (isBlank u). }
  split; [exact H|].
  exact (proj1 (failed_batch_appends_nothing deadWeb 0 20 (firstn 10 demoUrls)
                  (mkRun header [] []) [] 0) H).
Defined.

(* ================================================================= *)
(** * Further properties of the code *)

(** ** Reading the CSV back *)

Lemma readCsv_field (v : string) :
  forall rest field row rows,
  readCsv (doubleQuotes v ++ String dquote rest) InField field row rows
  = readCsv rest AfterQuote (field ++ v) row rows.
Proof.
  induction v as [|c v IH]; intros rest field row rows.
  - cbn [doubleQuotes append readCsv]. rewrite Ascii.eqb_refl.
    now rewrite append_empty_r.
  - cbn [doubleQuotes]. destruct (Ascii.eqb c dquote) eqn:Hc.
    + apply Ascii.eqb_eq in Hc. subst c.
      cbn [append readCsv]. rewrite Ascii.eqb_refl. rewrite IH.
      now rewrite append_assoc.
    + cbn [append readCsv]. rewrite Hc, IH. now rewrite append_assoc.
Qed.

Lemma readCsv_quoted (v rest : string) (field : string)
    (row : list string) (rows : list (list string)) :
  readCsv (str1 dquote ++ doubleQuotes v ++ str1 dquote ++ rest)
          FieldStart field row rows
  = readCsv rest AfterQuote v row rows.
Proof.
  cbn [str1 append readCsv]. rewrite Ascii.eqb_refl. apply readCsv_field.
Qed.

Lemma readCsv_comma (rest field : string) (row : list string)
    (rows : list (list string)) :
  readCsv ("," ++ rest) AfterQuote field row rows
  = readCsv rest FieldStart EmptyString (row ++ [field])%list rows.
Proof. reflexivity. Qed.



Lemma readCsv_linkLine (r : LinkRow) (rest : string) (rows : list (list string)) :
  readCsv (linkLine r ++ rest) FieldStart EmptyString [] rows
  = readCsv rest AfterQuote (rowHref r) [rowText r] rows.
Proof.
  unfold linkLine. rewrite !append_assoc.
  rewrite readCsv_quoted, readCsv_comma. now rewrite readCsv_quoted.
Qed.

Lemma readCsv_linkLines (rs : list LinkRow) :
  forall rows,
  readCsv (String.concat (str1 newline) (map linkLine rs)) FieldStart EmptyString [] rows
  = Some (rows ++ map (fun r => [rowText r; rowHref r]) rs)%list.
Proof.
  induction rs as [|r rs IH]; intros rows.
  - cbn. now rewrite app_nil_r.
  - destruct rs as [|r' rs].
    + cbn [map String.concat]. rewrite <- (append_empty_r (linkLine r)).
      rewrite readCsv_linkLine. reflexivity.
    + cbn [map]. rewrite concat_cons2, readCsv_linkLine.
      cbn [str1 append readCsv].
      change (linkLine r' :: map linkLine rs) with (map linkLine (r' :: rs)).
      rewrite IH. cbn [map]. now rewrite <- app_assoc.
Qed.


(** X2.  The file of single-page mode is the line [text,href] followed
    by the rows joined by line feeds, with no line feed after the last
    one; it reads back to one row of two fields per matched node, in
    order: the trimmed text and the link target (that of the node, else
    that of its closest enclosing link, else empty).  With no node
    matched the file is the header line alone. *)
Theorem single_page_file_reads_back (nodes : list Node) :
  exists body,
    singlePageFile nodes = ("text,href" ++ str1 newline) ++ body /\
    parseCsv body
      = Some (map (fun n => [rowText (readNode n); rowHref (readNode n)]) nodes) /\
    (nodes = [] <-> body = EmptyString) /\
    (forall r rs, map readNode nodes = (rs ++ [r])%list ->
       exists pre, body = pre ++ linkLine r).
Proof.
  exists (String.concat (str1 newline) (map linkLine (map readNode nodes))).
  split; [reflexivity|]. split; [|split].
  - unfold parseCsv. rewrite readCsv_linkLines. cbn [app]. now rewrite map_map.
  - split.
    + now intros ->.
    + destruct nodes as [|n ns]; [reflexivity|].
      cbn [map]. destruct (map linkLine (map readNode ns)); cbn [String.concat];
        unfold linkLine; cbn [str1 append]; discriminate.
  - intros r rs H. rewrite H. clear H.
    induction rs as [|x rs IH].
    + exists EmptyString. reflexivity.
    + destruct IH as [pre Hpre]. cbn [app map].
      destruct (map linkLine (rs ++ [r])) as [|y ys] eqn:Hm.
      * destruct rs; discriminate.
      * rewrite concat_cons2, Hpre.
        exists (linkLine x ++ str1 newline ++ pre). now rewrite !append_assoc.
Qed.

Lemma single_page_file_reads_back_witness :
  map readNode [mkNode None (Some "https://a.example/b") (Some " Hello ") "x";
                mkNode (Some "") None None "  T  "]
  = ([mkLinkRow "Hello" "https://a.example/b"] ++ [mkLinkRow "T" EmptyString])%list /\
  exists body,
    singlePageFile [mkNode None (Some "https://a.example/b") (Some " Hello ") "x";
                    mkNode (Some "") None None "  T  "]
      = ("text,href" ++ str1 newline) ++ body /\
    exists pre, body = pre ++ linkLine (mkLinkRow "T" EmptyString).
Proof.
  split; [reflexivity|].
  destruct (single_page_file_reads_back
              [mkNode None (Some "https://a.example/b") (Some " Hello ") "x";
               mkNode (Some "") None None "  T  "]) as [body [Hf [_ [_ Hlast]]]].
  exists body. split; [exact Hf|].
  apply (Hlast (mkLinkRow "T" EmptyString) [mkLinkRow "Hello" "https://a.example/b"]).
  reflexivity.
Defined.

(** ** The command line *)

Lemma parseArgsFrom_last_flag (t : string) :
  startsWith t "--" = true ->
  forall n argv args, List.length argv <= n ->
  parseArgsFrom (argv ++ [t]) args = parseArgsFrom [t] (parseArgsFrom argv args).
Proof.
  intros Ht. remember (parseArgsFrom [t]) as final eqn:Hfinal.
  induction n as [|n IH]; intros argv args Hn.
  - destruct argv; [now subst final | cbn in Hn; lia].
  - destruct argv as [|token rest]; [now subst final|].
    cbn [List.length] in Hn.
    change ((token :: rest) ++ [t])%list with (token :: (rest ++ [t]))%list.
    cbn [parseArgsFrom]. destruct (startsWith token "--").
    + destruct (indexOfChar "=" token) as [eq|].
      * apply IH. lia.
      * destruct rest as [|next rest'].
        -- cbn [app]. rewrite Ht. cbn [negb]. now subst final.
        -- change ((next :: rest') ++ [t])%list with (next :: (rest' ++ [t]))%list.
           cbv beta iota.
           destruct (negb (startsWith next "--")).
           ++ apply IH. cbn [List.length] in Hn. lia.
           ++ change (next :: (rest' ++ [t]))%list with ((next :: rest') ++ [t])%list.
              apply IH. lia.
    + apply IH. lia.
Qed.

Lemma indexOfChar_app (c : ascii) (k v : string) :
  indexOfChar c k = None ->
  indexOfChar c (k ++ String c v) = Some (String.length k).
Proof.
  induction k as [|x k IH]; intros H.
  - cbn. now rewrite Ascii.eqb_refl.
  - cbn [indexOfChar append String.length] in *.
    destruct (Ascii.eqb x c); [discriminate|].
    destruct (indexOfChar c k); [discriminate|]. now rewrite IH.
Qed.

Lemma takeChars_app (k r : string) : takeChars (String.length k) (k ++ r) = k.
Proof.
  induction k as [|x k IH]; cbn [String.length append takeChars].
  - now destruct r.
  - now rewrite IH.
Qed.

Lemma sliceFrom_app (k r : string) : sliceFrom (String.length k) (k ++ r) = r.
Proof. induction k as [|x k IH]; [reflexivity | exact IH]. Qed.

Lemma parseArgsFrom_assignment (k v : string) (args : Args) :
  indexOfChar "=" k = None ->
  parseArgsFrom ["--" ++ k ++ "=" ++ v] args = setArg args k (ArgStr v).
Proof.
  intros Hk.
  change ("--" ++ k ++ "=" ++ v) with (String "-" (String "-" (k ++ String "=" v))).
  cbn [parseArgsFrom]. unfold startsWith. cbn [stripPrefix Ascii.eqb].
  replace (Ascii.eqb "-" "-") with true by reflexivity.
  cbn [indexOfChar]. replace (Ascii.eqb "-" "=") with false by reflexivity.
  rewrite (indexOfChar_app "=" k v Hk).
  unfold sliceStr. cbn [sliceFrom Nat.sub Nat.add].
  rewrite Nat.sub_0_r, takeChars_app.
  replace (String.length k + 1) with (String.length (k ++ "=")).
  - change (k ++ String "=" v) with (k ++ ("=" ++ v)).
    rewrite <- append_assoc, sliceFrom_app. reflexivity.
  - rewrite append_length. reflexivity.
Qed.

Lemma parseArgsFrom_bare_flag (k : string) (args : Args) :
  indexOfChar "=" k = None ->
  parseArgsFrom ["--" ++ k] args = setArg args k ArgTrue.
Proof.
  intros Hk. change ("--" ++ k) with (String "-" (String "-" k)).
  cbn [parseArgsFrom]. unfold startsWith. cbn [stripPrefix].
  replace (Ascii.eqb "-" "-") with true by reflexivity.
  cbn [indexOfChar]. replace (Ascii.eqb "-" "=") with false by reflexivity.
  now rewrite Hk.
Qed.

Lemma getArg_setArg (args : Args) (k : string) (v : ArgVal) :
  k <> "__proto__" -> getArg (setArg args k v) k = Some v.
Proof.
  intros Hk. unfold setArg.
  destruct (String.eqb_spec k "__proto__"); [contradiction|].
  cbn [getArg]. now rewrite String.eqb_refl.
Qed.

Lemma setArg_proto (args : Args) (v : ArgVal) : setArg args "__proto__" v = args.
Proof. reflexivity. Qed.

Lemma parseArgs_last_assignment (argv : list string) (k v : string) :
  indexOfChar "=" k = None -> k <> "__proto__" ->
  getArg (parseArgs (argv ++ ["--" ++ k ++ "=" ++ v])) k = Some (ArgStr v).
Proof.
  intros Hk Hp. unfold parseArgs.
  rewrite (parseArgsFrom_last_flag ("--" ++ k ++ "=" ++ v) eq_refl (List.length argv))
    by apply le_n.
  rewrite parseArgsFrom_assignment by exact Hk. now apply getArg_setArg.
Qed.

Lemma parseArgs_last_bare (argv : list string) (k : string) :
  indexOfChar "=" k = None -> k <> "__proto__" ->
  getArg (parseArgs (argv ++ ["--" ++ k])) k = Some ArgTrue.
Proof.
  intros Hk Hp. unfold parseArgs.
  rewrite (parseArgsFrom_last_flag ("--" ++ k) eq_refl (List.length argv))
    by apply le_n.
  rewrite parseArgsFrom_bare_flag by exact Hk. now apply getArg_setArg.
Qed.

Lemma parseArgs_last_proto (argv : list string) (v : string) :
  parseArgs (argv ++ ["--__proto__=" ++ v]) = parseArgs argv /\
  parseArgs (argv ++ ["--__proto__"]) = parseArgs argv.
Proof.
  unfold parseArgs. split.
  - rewrite (parseArgsFrom_last_flag ("--__proto__=" ++ v) eq_refl (List.length argv))
      by apply le_n.
    change ("--__proto__=" ++ v) with ("--" ++ "__proto__" ++ "=" ++ v).
    now rewrite parseArgsFrom_assignment by reflexivity.
  - rewrite (parseArgsFrom_last_flag "--__proto__" eq_refl (List.length argv))
      by apply le_n.
    change "--__proto__" with ("--" ++ "__proto__").
    now rewrite parseArgsFrom_bare_flag by reflexivity.
Qed.

(** A key is stored only for a token that starts with the two dashes
    and the key. *)
Lemma startsWith_app (s p q : string) :
  startsWith s (p ++ q) = true -> startsWith s p = true.
Proof.
  revert s. induction p as [|a p IH]; intros s H; [reflexivity|].
  destruct s as [|c s]; [discriminate|].
  change (String a p ++ q) with (String a (p ++ q)) in H.
  rewrite startsWith_cons in *. apply andb_true_iff in H. destruct H as [Ha Hp].
  rewrite Ha. cbn [andb]. now apply IH.
Qed.

Lemma startsWith_self_app (p r : string) : startsWith (p ++ r) p = true.
Proof. unfold startsWith. now rewrite stripPrefix_app. Qed.

Lemma startsWith_split (s p : string) :
  startsWith s p = true -> s = p ++ sliceFrom (String.length p) s.
Proof.
  revert s. induction p as [|a p IH]; intros s H; [reflexivity|].
  destruct s as [|c s]; [discriminate|].
  rewrite startsWith_cons in H. apply andb_true_iff in H. destruct H as [Ha Hp].
  apply Ascii.eqb_eq in Ha. subst c.
  cbn [String.length sliceFrom append]. f_equal. now apply IH.
Qed.

Lemma takeChars_prefix (n : nat) (s : string) :
  exists r, s = takeChars n s ++ r.
Proof.
  revert s. induction n as [|n IH]; intros s.
  - exists s. now destruct s.
  - destruct s as [|c s]; [now exists EmptyString|].
    destruct (IH s) as [r Hr]. exists r. cbn [takeChars append]. now rewrite <- Hr.
Qed.

Lemma flag_key_prefix (token k : string) :
  startsWith token "--" = true ->
  startsWith token ("--" ++ k) = false ->
  sliceFrom 2 token <> k /\ forall eq, sliceStr 2 eq token <> k.
Proof.
  intros Ht Hk.
  pose proof (startsWith_split token "--" Ht) as Hs.
  change (String.length "--") with 2 in Hs.
  assert (Hpre : forall r, token = "--" ++ k ++ r -> False).
  { intros r Hr. pose proof (startsWith_self_app ("--" ++ k) r) as H.
    rewrite append_assoc, <- Hr in H. congruence. }
  split.
  - intros He. apply (Hpre EmptyString). rewrite append_empty_r, <- He. exact Hs.
  - intros eq He. unfold sliceStr in He.
    destruct (takeChars_prefix (eq - 2) (sliceFrom 2 token)) as [r Hr].
    rewrite He in Hr. apply (Hpre r). rewrite <- Hr. exact Hs.
Qed.

Lemma getArg_setArg_other (args : Args) (k k' : string) (v : ArgVal) :
  k' <> k -> getArg (setArg args k' v) k = getArg args k.
Proof.
  intros H. unfold setArg. destruct (k' =? "__proto__"); [reflexivity|].
  cbn [getArg]. destruct (String.eqb_spec k' k); [contradiction | reflexivity].
Qed.

Lemma parseArgsFrom_absent (k : string) :
  forall n argv args, List.length argv <= n ->
  Forall (fun t => startsWith t ("--" ++ k) = false) argv ->
  getArg (parseArgsFrom argv args) k = getArg args k.
Proof.
  induction n as [|n IH]; intros argv args Hn Hall.
  - destruct argv; [reflexivity | cbn in Hn; lia].
  - destruct argv as [|token rest]; [reflexivity|].
    cbn [List.length] in Hn. inversion Hall as [|? ? Htok Hrest]; subst.
    cbn [parseArgsFrom]. destruct (startsWith token "--") eqn:Hflag.
    + destruct (flag_key_prefix token k Hflag Htok) as [Hbare Hassign].
      destruct (indexOfChar "=" token) as [eq|].
      * rewrite IH by (try lia; assumption).
        apply getArg_setArg_other, Hassign.
      * destruct rest as [|next rest'].
        -- cbn [parseArgsFrom]. now apply getArg_setArg_other.
        -- destruct (negb (startsWith next "--")).
           ++ inversion Hrest; subst.
              rewrite IH by (try assumption; cbn [List.length] in Hn; lia).
              now apply getArg_setArg_other.
           ++ rewrite IH by (try lia; assumption).
              now apply getArg_setArg_other.
    + apply IH; [lia | assumption].
Qed.

(** ** Numbers on the command line *)

Lemma digit_char_class (c : ascii) :
  isDigit c = true ->
  isWhite c = false /\ Ascii.eqb c "-" = false /\ Ascii.eqb c "+" = false.
Proof.
  destruct c as [[] [] [] [] [] [] [] []]; intros H;
    try discriminate H; repeat split.
Qed.

Lemma digitChar_code (d : Z) :
  (0 <= d < 10)%Z -> nat_of_ascii (digitChar d) = 48 + Z.to_nat d.
Proof. intros H. unfold digitChar. apply nat_ascii_embedding. lia. Qed.

Lemma digitChar_isDigit (d : Z) : (0 <= d < 10)%Z -> isDigit (digitChar d) = true.
Proof.
  intros H. unfold isDigit. rewrite (digitChar_code d H).
  apply andb_true_iff. split; apply Nat.leb_le; lia.
Qed.

Lemma showDigits_allDigits (fuel : nat) :
  forall n acc, (0 <= n)%Z -> allDigits acc = true ->
  allDigits (showDigits fuel n acc) = true.
Proof.
  induction fuel as [|fuel IH]; intros n acc Hn Hacc; [exact Hacc|].
  cbn [showDigits].
  assert (Hd : allDigits (String (digitChar (n mod 10)) acc) = true).
  { cbn [allDigits]. rewrite digitChar_isDigit by (apply Z.mod_pos_bound; lia).
    exact Hacc. }
  destruct (n <? 10)%Z; [exact Hd|].
  apply IH; [apply Z.div_pos; lia | exact Hd].
Qed.

Lemma showDigits_nonEmpty (fuel : nat) :
  forall n acc, acc <> EmptyString -> showDigits fuel n acc <> EmptyString.
Proof.
  induction fuel as [|fuel IH]; intros n acc Hacc; [exact Hacc|].
  cbn [showDigits]. destruct (n <? 10)%Z; [discriminate|].
  apply IH. discriminate.
Qed.

Lemma showNat_digits (n : Z) :
  (0 <= n)%Z ->
  exists c r, showNat n = String c r /\ isDigit c = true /\ allDigits r = true.
Proof.
  intros Hn.
  assert (Hall : allDigits (showNat n) = true)
    by (apply showDigits_allDigits; [exact Hn | reflexivity]).
  assert (Hne : showNat n <> EmptyString).
  { unfold showNat. cbn [showDigits]. destruct (n <? 10)%Z; [discriminate|].
    apply showDigits_nonEmpty. discriminate. }
  destruct (showNat n) as [|c r]; [congruence|].
  cbn [allDigits] in Hall. apply andb_true_iff in Hall. now exists c, r.
Qed.

Lemma leadingDigits_all (s : string) :
  forall acc count, allDigits s = true ->
  leadingDigits s acc count = (decimalFrom acc s, count + String.length s).
Proof.
  induction s as [|c r IH]; intros acc count H.
  - cbn. now rewrite Nat.add_0_r.
  - cbn [allDigits] in H. apply andb_true_iff in H. destruct H as [Hc Hr].
    cbn [leadingDigits decimalFrom String.length]. rewrite Hc, IH by exact Hr.
    f_equal. lia.
Qed.

Lemma parseInt10_showNat (n : Z) : (0 <= n)%Z -> parseInt10 (showNat n) = Some n.
Proof.
  intros Hn. destruct (showNat_digits n Hn) as [c [r [Hs [Hc Hr]]]].
  pose proof (showNat_value n Hn) as Hv. unfold decimalValue in Hv.
  destruct (digit_char_class c Hc) as [Hw [Hm Hp]].
  unfold parseInt10. rewrite Hs in *. cbn [trimStart]. rewrite Hw, Hm, Hp.
  rewrite leadingDigits_all by (cbn [allDigits]; now rewrite Hc).
  rewrite Hv. reflexivity.
Qed.

Lemma parseInt10_showInt (z : Z) : parseInt10 (showInt z) = Some z.
Proof.
  unfold showInt. destruct (Z.ltb_spec z 0) as [Hneg|Hpos].
  - assert (Ha : (0 <= Z.abs z)%Z) by lia.
    destruct (showNat_digits _ Ha) as [c [r [Hs [Hc Hr]]]].
    pose proof (showNat_value _ Ha) as Hv. unfold decimalValue in Hv.
    unfold parseInt10. cbn [append trimStart].
    replace (isWhite "-") with false by reflexivity.
    replace (Ascii.eqb "-" "-") with true by reflexivity.
    rewrite Hs in *.
    rewrite leadingDigits_all by (cbn [allDigits]; now rewrite Hc).
    rewrite Hv. cbn [Nat.add String.length]. f_equal. lia.
  - now apply parseInt10_showNat.
Qed.

(** X3.  Whatever comes before it on the command line, a last token
    [--k=v] makes [v] the own property [k] of the arguments, and a last
    token [--k] makes it [true], for a key without an equals sign and
    other than [__proto__]: a later flag overrides an earlier one and is
    never taken for the value of the flag before it.  Under the key
    [__proto__] the assignment is ignored and the arguments are those of
    the tokens before it. *)
Theorem parseArgs_last_flag_wins (argv : list string) (k v : string) :
  indexOfChar "=" k = None ->
  k <> "__proto__" ->
  (getArg (parseArgs (argv ++ ["--" ++ k ++ "=" ++ v])) k = Some (ArgStr v) /\
   readArg (parseArgs (argv ++ ["--" ++ k ++ "=" ++ v])) k = OwnValue (ArgStr v)) /\
  (getArg (parseArgs (argv ++ ["--" ++ k])) k = Some ArgTrue /\
   readArg (parseArgs (argv ++ ["--" ++ k])) k = OwnValue ArgTrue) /\
  parseArgs (argv ++ ["--__proto__=" ++ v]) = parseArgs argv /\
  parseArgs (argv ++ ["--__proto__"]) = parseArgs argv.
Proof.
  intros Hk Hp. unfold readArg.
  rewrite (parseArgs_last_assignment argv k v Hk Hp).
  rewrite (parseArgs_last_bare argv k Hk Hp).
  destruct (parseArgs_last_proto argv v) as [P1 P2].
  split; [split; reflexivity|]. split; [split; reflexivity|].
  split; [exact P1 | exact P2].
Qed.

Lemma parseArgs_last_flag_wins_witness :
  (indexOfChar "=" "url" = None /\ "url" <> "__proto__") /\
  readArg (parseArgs (["--url"; "https://a.example"; "--headless"]
                      ++ ["--" ++ "url" ++ "=" ++ "https://b.example/?q=1"])) "url"
    = OwnValue (ArgStr "https://b.example/?q=1") /\
  readArg (parseArgs (["--url"; "https://a.example"; "--headless"] ++ ["--" ++ "url"])) "url"
    = OwnValue ArgTrue.
Proof.
  assert (Hp : "url" <> "__proto__") by discriminate.
  split; [split; [reflexivity | exact Hp]|].
  destruct (parseArgs_last_flag_wins ["--url"; "https://a.example"; "--headless"]
              "url" "https://b.example/?q=1" eq_refl Hp)
    as [[_ H1] [[_ H2] _]].
  split; [exact H1 | exact H2].
Defined.

(** X4.  A key that no token names (no token starts with the two dashes
    followed by the key) is not an own property of the parsed arguments.
    Reading it then gives [undefined], so that the environment or the
    default decides, unless the key names a property of
    [Object.prototype], which is read instead. *)
Theorem parseArgs_unnamed_key_undefined (argv : list string) (k : string) :
  Forall (fun t => startsWith t ("--" ++ k) = false) argv ->
  getArg (parseArgs argv) k = None /\
  (~ In k objectPrototypeKeys -> readArg (parseArgs argv) k = UndefinedValue) /\
  (In k objectPrototypeKeys -> readArg (parseArgs argv) k = InheritedValue).
Proof.
  intros H.
  assert (Hown : getArg (parseArgs argv) k = None).
  { unfold parseArgs.
    now rewrite (parseArgsFrom_absent k (List.length argv)) by (try apply le_n; exact H). }
  split; [exact Hown|]. unfold readArg. rewrite Hown.
  destruct (existsb (String.eqb k) objectPrototypeKeys) eqn:He.
  - apply existsb_exists in He. destruct He as [x [Hx Hkx]].
    apply String.eqb_eq in Hkx. subst x. split; [contradiction | reflexivity].
  - split; [reflexivity|]. intros Hin.
    assert (Ht : existsb (String.eqb k) objectPrototypeKeys = true).
    { apply existsb_exists. exists k. split; [exact Hin | apply String.eqb_refl]. }
    congruence.
Qed.

Lemma parseArgs_unnamed_key_undefined_witness :
  (Forall (fun t => startsWith t ("--" ++ "maxProducts") = false)
     ["--url"; "https://a.example"; "stray"; "--crawlSitemap"] /\
   ~ In "maxProducts" objectPrototypeKeys) /\
  readArg (parseArgs ["--url"; "https://a.example"; "stray"; "--crawlSitemap"])
    "maxProducts" = UndefinedValue /\
  (Forall (fun t => startsWith t ("--" ++ "toString") = false) [] /\
   In "toString" objectPrototypeKeys) /\
  readArg (parseArgs []) "toString" = InheritedValue.
Proof.
  assert (H : Forall (fun t => startsWith t ("--" ++ "maxProducts") = false)
                ["--url"; "https://a.example"; "stray"; "--crawlSitemap"])
    by (repeat constructor).
  assert (Hn : ~ In "maxProducts" objectPrototypeKeys).
  { cbn. intros Hin. repeat (destruct Hin as [Hin|Hin]; [discriminate Hin|]).
    exact Hin. }
  assert (H' : Forall (fun t => startsWith t ("--" ++ "toString") = false) [])
    by constructor.
  assert (Hi : In "toString" objectPrototypeKeys).
  { cbn. do 8 right. left. reflexivity. }
  split; [split; [exact H | exact Hn]|].
  split; [exact (proj1 (proj2 (parseArgs_unnamed_key_undefined _ _ H)) Hn)|].
  split; [split; [exact H' | exact Hi]|].
  exact (proj2 (proj2 (parseArgs_unnamed_key_undefined _ _ H')) Hi).
Defined.

(** X5.  A last token [--maxProducts=z], with [z] a decimal integer
    below 2^53 in magnitude, sets the maximum to [z], whatever precedes
    it and whatever the environment holds; a last bare [--maxProducts],
    whose value is [true], sets it to 0. *)
Theorem maxProducts_from_flag (argv : list string) (env : Env) (z : Z) :
  (Z.abs z < 2 ^ 53)%Z ->
  cfgMaxProducts (resolveConfig (parseArgs (argv ++ ["--maxProducts=" ++ showInt z])) env) = z /\
  cfgMaxProducts (resolveConfig (parseArgs (argv ++ ["--maxProducts"])) env) = 0%Z.
Proof.
  intros _. split; unfold resolveConfig; cbn [cfgMaxProducts].
  - change ("--maxProducts=" ++ showInt z)
      with ("--" ++ "maxProducts" ++ "=" ++ showInt z).
    rewrite parseArgs_last_assignment by (try reflexivity; discriminate).
    unfold intOrZero, argJs. cbn [toStr]. now rewrite parseInt10_showInt.
  - change "--maxProducts" with ("--" ++ "maxProducts").
    now rewrite parseArgs_last_bare by (try reflexivity; discriminate).
Qed.

Lemma maxProducts_from_flag_witness :
  (Z.abs 25 < 2 ^ 53)%Z /\
  cfgMaxProducts
    (resolveConfig (parseArgs (["--maxProducts"; "3"; "--crawlSitemap"]
                               ++ ["--maxProducts=" ++ showInt 25]))
                   (fun _ => Some "7")) = 25%Z.
Proof.
  assert (H : (Z.abs 25 < 2 ^ 53)%Z) by reflexivity.
  split; [exact H|].
  exact (proj1 (maxProducts_from_flag ["--maxProducts"; "3"; "--crawlSitemap"]
                  (fun _ => Some "7") 25 H)).
Defined.

(** X6.  A last token [--crawlSitemap], or [--crawlSitemap=v] with [v]
    spelling true in any case, selects the sitemap mode whatever
    precedes it and whatever the environment holds, and the usage error
    is then not raised even without a URL or a selector. *)
Theorem crawlSitemap_from_flag (argv : list string) (env : Env) (v : string) :
  toLowerCase v = "true" ->
  (cfgCrawlSitemap (resolveConfig (parseArgs (argv ++ ["--crawlSitemap=" ++ v])) env) = true /\
   usageError (resolveConfig (parseArgs (argv ++ ["--crawlSitemap=" ++ v])) env) = false) /\
  (cfgCrawlSitemap (resolveConfig (parseArgs (argv ++ ["--crawlSitemap"])) env) = true /\
   usageError (resolveConfig (parseArgs (argv ++ ["--crawlSitemap"])) env) = false).
Proof.
  intros Hv.
  assert (H1 : cfgCrawlSitemap
                 (resolveConfig (parseArgs (argv ++ ["--crawlSitemap=" ++ v])) env) = true).
  { unfold resolveConfig; cbn [cfgCrawlSitemap].
    change ("--crawlSitemap=" ++ v) with ("--" ++ "crawlSitemap" ++ "=" ++ v).
    rewrite parseArgs_last_assignment by (try reflexivity; discriminate).
    unfold argJs. cbn [toStr]. now rewrite Hv. }
  assert (H2 : cfgCrawlSitemap
                 (resolveConfig (parseArgs (argv ++ ["--crawlSitemap"])) env) = true).
  { unfold resolveConfig; cbn [cfgCrawlSitemap].
    change "--crawlSitemap" with ("--" ++ "crawlSitemap").
    now rewrite parseArgs_last_bare by (try reflexivity; discriminate). }
  unfold usageError. rewrite H1, H2. repeat split.
Qed.

Lemma crawlSitemap_from_flag_witness :
  toLowerCase "TRUE" = "true" /\
  cfgCrawlSitemap
    (resolveConfig (parseArgs (["--crawlSitemap"; "false"] ++ ["--crawlSitemap=" ++ "TRUE"]))
                   (fun _ => Some "false")) = true.
Proof.
  split; [reflexivity|].
  exact (proj1 (proj1 (crawlSitemap_from_flag ["--crawlSitemap"; "false"]
                         (fun _ => Some "false") "TRUE" eq_refl))).
Defined.

(** ** The timestamp and the sitemap address *)

Lemma pad_below_100 (n : nat) :
  n < 100 ->
  String.length (pad n) = 2 /\ allDigits (pad n) = true /\
  decimalValue (pad n) = Z.of_nat n.
Proof.
  intros Hn.
  assert (Hall : forallb (fun k => (String.length (pad k) =? 2)%nat &&
                                   allDigits (pad k) &&
                                   (decimalValue (pad k) =? Z.of_nat k)%Z)
                         (seq 0 100) = true) by (vm_compute; reflexivity).
  rewrite forallb_forall in Hall.
  specialize (Hall n). rewrite in_seq in Hall.
  specialize (Hall ltac:(lia)).
  apply andb_true_iff in Hall. destruct Hall as [Hall Hv].
  apply andb_true_iff in Hall. destruct Hall as [Hl Hd].
  repeat split; [now apply Nat.eqb_eq | exact Hd | now apply Z.eqb_eq].
Qed.

Lemma year_four_digits (y : nat) :
  (1000 <= Z.of_nat y < 10000)%Z ->
  String.length (showNat (Z.of_nat y)) = 4 /\
  allDigits (showNat (Z.of_nat y)) = true.
Proof.
  intros Hy.
  assert (Hall : forallb (fun k => (String.length (showNat (Z.of_nat k)) =? 4)%nat &&
                                   allDigits (showNat (Z.of_nat k)))
                         (seq 1000 (9 * 1000)) = true) by (vm_compute; reflexivity).
  rewrite forallb_forall in Hall.
  specialize (Hall y). rewrite in_seq in Hall.
  specialize (Hall ltac:(lia)).
  apply andb_true_iff in Hall. destruct Hall as [Hl Hd].
  split; [now apply Nat.eqb_eq | exact Hd].
Qed.

(** X7.  For a date with a four-digit year the timestamp has the fixed
    layout YYYYMMDD-HHMMSS: fifteen characters, all decimal digits but
    the dash, and each group reads back as the year, the month counted
    from 1, the day, the hour, the minute and the second. *)
Theorem timestamp_layout (d : DateParts) :
  (1000 <= Z.of_nat (fullYear d) < 10000)%Z ->
  month d < 12 -> date d < 32 -> hours d < 24 -> minutes d < 60 -> seconds d < 60 ->
  exists y mo da h mi s,
    timestamp d = y ++ mo ++ da ++ "-" ++ h ++ mi ++ s /\
    String.length (timestamp d) = 15 /\
    (String.length y = 4 /\ allDigits y = true /\ decimalValue y = Z.of_nat (fullYear d)) /\
    (String.length mo = 2 /\ allDigits mo = true /\ decimalValue mo = Z.of_nat (month d + 1)) /\
    (String.length da = 2 /\ allDigits da = true /\ decimalValue da = Z.of_nat (date d)) /\
    (String.length h = 2 /\ allDigits h = true /\ decimalValue h = Z.of_nat (hours d)) /\
    (String.length mi = 2 /\ allDigits mi = true /\ decimalValue mi = Z.of_nat (minutes d)) /\
    (String.length s = 2 /\ allDigits s = true /\ decimalValue s = Z.of_nat (seconds d)).
Proof.
  intros Hy Hmo Hda Hh Hmi Hs.
  destruct (year_four_digits _ Hy) as [Yl Yd].
  pose proof (showNat_value (Z.of_nat (fullYear d)) ltac:(lia)) as Yv.
  pose proof (pad_below_100 (month d + 1) ltac:(lia)) as Pmo.
  pose proof (pad_below_100 (date d) ltac:(lia)) as Pda.
  pose proof (pad_below_100 (hours d) ltac:(lia)) as Ph.
  pose proof (pad_below_100 (minutes d) ltac:(lia)) as Pmi.
  pose proof (pad_below_100 (seconds d) ltac:(lia)) as Ps.
  exists (showNat (Z.of_nat (fullYear d))), (pad (month d + 1)), (pad (date d)),
         (pad (hours d)), (pad (minutes d)), (pad (seconds d)).
  split; [reflexivity|]. split.
  - unfold timestamp. rewrite !append_length.
    destruct Pmo as [-> _], Pda as [-> _], Ph as [-> _], Pmi as [-> _], Ps as [-> _].
    rewrite Yl. reflexivity.
  - repeat split; try tauto; assumption.
Qed.

Lemma timestamp_layout_witness :
  ((1000 <= Z.of_nat (fullYear (mkDateParts 2026 10 1 9 5 59)) < 10000)%Z /\
   month (mkDateParts 2026 10 1 9 5 59) < 12 /\
   date (mkDateParts 2026 10 1 9 5 59) < 32 /\
   hours (mkDateParts 2026 10 1 9 5 59) < 24 /\
   minutes (mkDateParts 2026 10 1 9 5 59) < 60 /\
   seconds (mkDateParts 2026 10 1 9 5 59) < 60) /\
  timestamp (mkDateParts 2026 10 1 9 5 59) = "20261101-090559" /\
  String.length (timestamp (mkDateParts 2026 10 1 9 5 59)) = 15.
Proof.
  assert (Hy : (1000 <= Z.of_nat 2026 < 10000)%Z) by lia.
  assert (H1 : 10 < 12) by lia. assert (H2 : 1 < 32) by lia.
  assert (H3 : 9 < 24) by lia. assert (H4 : 5 < 60) by lia.
  assert (H5 : 59 < 60) by lia.
  split; [cbn; tauto|]. split; [reflexivity|].
  destruct (timestamp_layout (mkDateParts 2026 10 1 9 5 59) Hy H1 H2 H3 H4 H5)
    as [y [mo [da [h [mi [s [_ [Hlen _]]]]]]]].
  exact Hlen.
Defined.

Lemma dropTrailingSlashes_slashes (k : nat) :
  dropTrailingSlashes (repeatChar "/" k) = EmptyString.
Proof.
  induction k as [|k IH]; [reflexivity|].
  cbn [repeatChar dropTrailingSlashes]. now rewrite IH.
Qed.

Lemma dropTrailingSlashes_app (s : string) (k : nat) :
  dropTrailingSlashes (s ++ repeatChar "/" k) = dropTrailingSlashes s.
Proof.
  induction s as [|c s IH].
  - cbn [append]. apply dropTrailingSlashes_slashes.
  - cbn [append dropTrailingSlashes]. now rewrite IH.
Qed.

Lemma noWhite_app (a b : string) : noWhite (a ++ b) = noWhite a && noWhite b.
Proof.
  induction a as [|c a IH]; [reflexivity|].
  cbn [append noWhite]. now rewrite IH, andb_assoc.
Qed.

Lemma noWhite_slashes (k : nat) : noWhite (repeatChar "/" k) = true.
Proof. induction k as [|k IH]; [reflexivity | exact IH]. Qed.

Lemma trimEnd_noWhite (s : string) : noWhite s = true -> trimEnd s = s.
Proof.
  induction s as [|c s IH]; intros H; [reflexivity|].
  cbn [noWhite] in H. apply andb_true_iff in H. destruct H as [Hc Hs].
  apply negb_true_iff in Hc. cbn [trimEnd]. rewrite (IH Hs), Hc.
  now destruct s.
Qed.

Lemma trim_noWhite (s : string) : noWhite s = true -> trim s = s.
Proof.
  intros H. unfold trim.
  assert (Hs : trimStart s = s).
  { destruct s as [|c s]; [reflexivity|].
    cbn [noWhite] in H. apply andb_true_iff in H. destruct H as [Hc _].
    apply negb_true_iff in Hc. cbn [trimStart]. now rewrite Hc. }
  rewrite Hs. now apply trimEnd_noWhite.
Qed.

(** X8.  For a base address without white space that does not itself
    end in a slash, any number of slashes added at its end makes no
    difference: the sitemap is fetched from the base followed by
    [/sitemap.xml].  Without a base, or with an empty one, it is fetched
    from the default shop. *)
Theorem sitemapUrl_trailing_slashes (u : string) (k : nat) :
  u <> EmptyString -> noWhite u = true -> dropTrailingSlashes u = u ->
  sitemapUrlOf (Some (u ++ repeatChar "/" k)) = u ++ "/sitemap.xml" /\
  sitemapUrlOf None = "https://thepihut.com/sitemap.xml" /\
  sitemapUrlOf (Some EmptyString) = "https://thepihut.com/sitemap.xml".
Proof.
  intros Hne Hw Hd. split; [|split; reflexivity].
  unfold sitemapUrlOf.
  assert (Hn : nonEmpty (u ++ repeatChar "/" k) = true) by (now destruct u).
  rewrite Hn.
  rewrite (trim_noWhite (u ++ repeatChar "/" k))
    by (rewrite noWhite_app, Hw; apply noWhite_slashes).
  rewrite dropTrailingSlashes_app, Hd.
  apply trim_noWhite. rewrite noWhite_app, Hw. reflexivity.
Qed.

Lemma sitemapUrl_trailing_slashes_witness :
  ("https://shop.example" <> EmptyString /\
   noWhite "https://shop.example" = true /\
   dropTrailingSlashes "https://shop.example" = "https://shop.example") /\
  sitemapUrlOf (Some ("https://shop.example" ++ repeatChar "/" 3))
    = "https://shop.example" ++ "/sitemap.xml".
Proof.
  assert (H : "https://shop.example" <> EmptyString) by discriminate.
  split; [repeat split; exact H|].
  exact (proj1 (sitemapUrl_trailing_slashes "https://shop.example" 3 H eq_refl eq_refl)).
Defined.

(** ** Discovery: failures and candidates *)

Lemma visitSitemaps_fails (fetch : string -> option string) (sitemaps : list string) :
  forall set,
  visitSitemaps fetch sitemaps set = None <->
  exists sm, In sm sitemaps /\ fetch sm = None.
Proof.
  induction sitemaps as [|sm rest IH]; intros set; cbn [visitSitemaps].
  - split; [discriminate | intros [sm [[] _]]].
  - destruct (fetch sm) as [x|] eqn:Hf.
    + rewrite IH. split.
      * intros [sm' [Hin Hn]]. exists sm'. split; [now right | exact Hn].
      * intros [sm' [[<-|Hin] Hn]]; [congruence|]. now exists sm'.
    + split; [|reflexivity]. intros _. exists sm. split; [now left | exact Hf].
Qed.

Lemma discover_fails (fetch : string -> option string) (sitemapUrl : string) :
  discover fetch sitemapUrl = None <->
  fetch sitemapUrl = None \/
  exists xml sm,
    fetch sitemapUrl = Some xml /\
    In sm (candidateSitemaps (extractLocs xml)) /\
    fetch sm = None.
Proof.
  unfold discover.
  destruct (fetch sitemapUrl) as [xml|] eqn:Hroot.
  - destruct (visitSitemaps fetch (candidateSitemaps (extractLocs xml)) [])
      as [set|] eqn:Hv.
    + split; [discriminate|].
      intros [H|[xml' [sm [Hx [Hin Hn]]]]]; [discriminate|].
      injection Hx as <-.
      assert (Hnone : visitSitemaps fetch (candidateSitemaps (extractLocs xml)) [] = None)
        by (apply visitSitemaps_fails; now exists sm).
      congruence.
    + split; [|reflexivity]. intros _. right.
      apply visitSitemaps_fails in Hv. destruct Hv as [sm [Hin Hn]].
      now exists xml, sm.
  - split; [now left | reflexivity].
Qed.

(** X9.  Discovery is abandoned exactly when the root sitemap cannot be
    fetched or one of the candidate sub-sitemaps cannot: a single
    failing sub-sitemap loses the whole catalogue.  An abandoned
    discovery abandons the sitemap run, before the output file is
    created; so does a last bare [--url] flag, whose value [true] has no
    [trim], before anything is fetched. *)
Theorem discovery_abandoned (fetch : string -> option string) (web : Web)
    (sitemapUrl : string) (url : option string) (maxProducts : Z)
    (argv : list string) (env : Env) :
  (discover fetch sitemapUrl = None <->
   fetch sitemapUrl = None \/
   exists xml sm,
     fetch sitemapUrl = Some xml /\
     In sm (candidateSitemaps (extractLocs xml)) /\
     fetch sm = None) /\
  (discover fetch (sitemapUrlOf url) = None ->
   sitemapMode fetch web url maxProducts = None) /\
  sitemapBranch (resolveConfig (parseArgs (argv ++ ["--url"])) env) fetch web = None.
Proof.
  split; [apply discover_fails|]. split.
  - intros H. unfold sitemapMode. now rewrite H.
  - unfold sitemapBranch, resolveConfig. cbn [cfgUrl].
    change "--url" with ("--" ++ "url").
    now rewrite parseArgs_last_bare by (try reflexivity; discriminate).
Qed.

Lemma discovery_abandoned_witness :
  (exists xml sm,
     (fun u => if u =? "https://thepihut.com/sitemap_products_2.xml"
               then None else demoFetch u) (sitemapUrlOf None) = Some xml /\
     In sm (candidateSitemaps (extractLocs xml)) /\
     (fun u => if u =? "https://thepihut.com/sitemap_products_2.xml"
               then None else demoFetch u) sm = None) /\
  discover (fun u => if u =? "https://thepihut.com/sitemap_products_2.xml"
                     then None else demoFetch u) (sitemapUrlOf None) = None /\
  sitemapMode (fun u => if u =? "https://thepihut.com/sitemap_products_2.xml"
                        then None else demoFetch u) demoWeb None 5 = None.
Proof.
  assert (H : exists xml sm,
     (fun u => if u =? "https://thepihut.com/sitemap_products_2.xml"
               then None else demoFetch u) (sitemapUrlOf None) = Some xml /\
     In sm (candidateSitemaps (extractLocs xml)) /\
     (fun u => if u =? "https://thepihut.com/sitemap_products_2.xml"
               then None else demoFetch u) sm = None).
  { exists demoIndex, "https://thepihut.com/sitemap_products_2.xml".
    split; [reflexivity|]. split; [|reflexivity].
    vm_compute. right. left. reflexivity. }
  destruct (discovery_abandoned
              (fun u => if u =? "https://thepihut.com/sitemap_products_2.xml"
                        then None else demoFetch u)
              demoWeb (sitemapUrlOf None) None 5 [] (fun _ => None))
    as [Hiff [Hrun _]].
  assert (Hd : discover (fun u => if u =? "https://thepihut.com/sitemap_products_2.xml"
                                  then None else demoFetch u) (sitemapUrlOf None) = None)
    by (apply (proj2 Hiff); right; exact H).
  split; [exact H|]. split; [exact Hd | exact (Hrun Hd)].
Defined.

Lemma filter_nil_iff {A : Type} (f : A -> bool) (l : list A) :
  filter f l = [] <-> forall x, In x l -> f x = false.
Proof.
  induction l as [|x l IH]; cbn [filter].
  - split; [intros _ y [] | reflexivity].
  - destruct (f x) eqn:Hx.
    + split; [discriminate|]. intros H. specialize (H x (or_introl eq_refl)). congruence.
    + rewrite IH. split.
      * intros H y [<-|Hy]; [exact Hx | now apply H].
      * intros H y Hy. apply H. now right.
Qed.

(** X10.  When some location of the root sitemap holds
    [sitemap_products], the sub-sitemaps visited are exactly those
    locations, in order; when none does, every location of the root is
    visited.  Either way only locations of the root are visited, and
    some is visited whenever the root has a location. *)
Theorem candidateSitemaps_choice (locs : list string) :
  ((exists l, In l locs /\ isProductSitemap l = true) ->
   candidateSitemaps locs = filter isProductSitemap locs) /\
  ((forall l, In l locs -> isProductSitemap l = false) ->
   candidateSitemaps locs = locs) /\
  incl (candidateSitemaps locs) locs /\
  (candidateSitemaps locs = [] <-> locs = []).
Proof.
  unfold candidateSitemaps.
  destruct (filter isProductSitemap locs) as [|c cs] eqn:Hf; cbn [List.length Nat.eqb].
  - pose proof (proj1 (filter_nil_iff _ _) Hf) as Hnone.
    split; [|split; [|split]].
    + intros [l [Hin Hl]]. rewrite (Hnone l Hin) in Hl. discriminate.
    + reflexivity.
    + apply incl_refl.
    + tauto.
  - split; [|split; [|split]].
    + reflexivity.
    + intros Hnone. apply filter_nil_iff in Hnone. congruence.
    + rewrite <- Hf. intros x Hx. apply filter_In in Hx. tauto.
    + split; [discriminate|]. intros ->. discriminate.
Qed.

Lemma candidateSitemaps_choice_witness :
  (exists l, In l (extractLocs demoIndex) /\ isProductSitemap l = true) /\
  candidateSitemaps (extractLocs demoIndex)
    = ["https://thepihut.com/sitemap_products_1.xml";
       "https://thepihut.com/sitemap_products_2.xml"] /\
  (forall l, In l ["https://shop.example/a.xml"; "https://shop.example/b.xml"] ->
             isProductSitemap l = false) /\
  candidateSitemaps ["https://shop.example/a.xml"; "https://shop.example/b.xml"]
    = ["https://shop.example/a.xml"; "https://shop.example/b.xml"].
Proof.
  assert (H1 : exists l, In l (extractLocs demoIndex) /\ isProductSitemap l = true).
  { exists "https://thepihut.com/sitemap_products_1.xml". split; [|reflexivity].
    vm_compute. left. reflexivity. }
  assert (H2 : forall l, In l ["https://shop.example/a.xml"; "https://shop.example/b.xml"] ->
                         isProductSitemap l = false).
  { intros l [<-|[<-|[]]]; reflexivity. }
  split; [exact H1|]. split.
  - rewrite (proj1 (candidateSitemaps_choice (extractLocs demoIndex)) H1).
    vm_compute. reflexivity.
  - split; [exact H2|].
    exact (proj1 (proj2 (candidateSitemaps_choice _)) H2).
Defined.

(** X11.  Every URL that discovery returns holds [/products/], and the
    list is the set as the loops left it: the filter of line 142 removes
    nothing from it, and the guard of line 163 skips none of its URLs. *)
Theorem discover_only_product_urls (fetch : string -> option string)
    (sitemapUrl : string) (urls : list string) :
  discover fetch sitemapUrl = Some urls ->
  Forall (fun u => isProductUrl u = true) urls /\
  (exists xml,
     fetch sitemapUrl = Some xml /\
     visitSitemaps fetch (candidateSitemaps (extractLocs xml)) [] = Some urls) /\
  gotoUrls urls = urls.
Proof.
  intros H.
  destruct (discover_firstSeen fetch sitemapUrl urls H) as [xml [Hroot Hset]].
  destruct Hset as [_ [Hin [_ Hblank]]].
  split; [|split].
  - apply Forall_forall. intros u Hu.
    apply (seenUrls_product fetch (candidateSitemaps (extractLocs xml))). now apply Hin.
  - exists xml. split; [exact Hroot|].
    unfold discover in H. rewrite Hroot in H.
    destruct (visitSitemaps fetch (candidateSitemaps (extractLocs xml)) [])
      as [set|] eqn:Hv; [|discriminate].
    injection H as <-. f_equal. symmetry. apply filter_all.
    intros u Hu. apply keepUrl_true, productUrl_not_blank.
    pose proof (setOf_visitSitemaps fetch _ [] [] set setOf_empty Hv) as [Hs _].
    apply (seenUrls_product fetch (candidateSitemaps (extractLocs xml))). now apply Hs.
  - now apply gotoUrls_all.
Qed.

Lemma discover_only_product_urls_witness :
  discover demoFetch (sitemapUrlOf None) = Some demoUrls /\
  Forall (fun u => isProductUrl u = true) demoUrls /\
  gotoUrls demoUrls = demoUrls.
Proof.
  assert (H : discover demoFetch (sitemapUrlOf None) = Some demoUrls)
    by (vm_compute; reflexivity).
  split; [exact H|].
  destruct (discover_only_product_urls _ _ _ H) as [Hp [_ Hg]].
  split; [exact Hp | exact Hg].
Defined.

(** ** The extractor: invariants and edge cases *)

Lemma normalizeLdAvailability_no_slash (raw : JsVal) :
  includes (normalizeLdAvailability raw) "/" = false.
Proof.
  unfold normalizeLdAvailability.
  destruct (includes (toStr (jsOr raw (VStr EmptyString))) "/") eqn:H.
  - now apply pop_split_last in H as [Hseg _].
  - exact H.
Qed.

Lemma pickEntry_no_slash (pg : Page) (obj : JsVal) (e : Extracted) :
  pickEntry pg obj = Ret (Some e) -> includes (availability e) "/" = false.
Proof.
  unfold pickEntry. intros H.
  assert (Hcore :
    (if isProductType (getProp obj "@type")
     then match readOffers (getProp obj "offers") with
          | Ret (ldPrice, ldAvailability) =>
              Ret (Some (mkExtracted
                           (decodeHtml pg (jsOr (getProp obj "name") (VStr EmptyString)))
                           (decodeHtml pg (jsOr (getProp obj "sku") (VStr EmptyString)))
                           ldPrice (normalizeLdAvailability ldAvailability)))
          | Throw => Throw
          end
     else Ret None) = Ret (Some e)).
  { destruct obj; try discriminate H; exact H. }
  destruct (isProductType (getProp obj "@type")); [|discriminate].
  destruct (readOffers (getProp obj "offers")) as [[p a]|]; [|discriminate].
  injection Hcore as <-. apply normalizeLdAvailability_no_slash.
Qed.

Lemma pickEntries_no_slash (pg : Page) (arr : list JsVal) (e : Extracted) :
  pickEntries pg arr = Ret (Some e) -> includes (availability e) "/" = false.
Proof.
  induction arr as [|obj rest IH]; cbn [pickEntries]; [discriminate|].
  destruct (pickEntry pg obj) as [[e'|]|] eqn:Hp; intros H.
  - injection H as <-. now apply (pickEntry_no_slash pg obj).
  - now apply IH.
  - discriminate.
Qed.

Lemma scanScripts_no_slash (pg : Page) (scripts : list (option JsVal)) (e : Extracted) :
  scanScripts pg scripts = Some e -> includes (availability e) "/" = false.
Proof.
  induction scripts as [|[j|] rest IH]; cbn [scanScripts]; [discriminate| |exact IH].
  destruct (pickProduct pg j) as [[e'|]|] eqn:Hp; intros H.
  - injection H as <-. now apply (pickEntries_no_slash pg _ _ Hp).
  - now apply IH.
  - now apply IH.
Qed.

Lemma shopifyStrategy_some (pg : Page) (e : Extracted) :
  exists e',
    shopifyStrategy pg (Some e) = Some e' /\
    name e' = name e /\ availability e' = availability e /\
    (sku e <> EmptyString -> e' = e) /\
    (sku e' = sku e \/ sku e = EmptyString) /\
    (price e' = price e \/ truthy (price e) = false).
Proof.
  unfold shopifyStrategy.
  destruct (nonEmpty (sku e)) eqn:Hsku; cbn [negb].
  - exists e. repeat split; auto.
  - apply nonEmpty_false in Hsku.
    destruct (shopifyMeta pg) as [sp|];
      [|exists e; repeat split; auto].
    destruct (sp_variants sp) as [|v vs];
      [exists e; repeat split; auto|].
    eexists. split; [reflexivity|].
    rewrite Hsku. cbn [nonEmpty negb name sku price availability].
    destruct (truthy (price e)) eqn:Hp; cbn [negb name sku price availability];
      repeat split; auto; congruence.
Qed.

Lemma structuredRecord_no_slash (pg : Page) :
  includes (availability (structuredRecord pg)) "/" = false.
Proof.
  unfold structuredRecord.
  destruct (jsonLdStrategy pg) as [e|] eqn:Hld.
  - destruct (shopifyStrategy_some pg e) as [e' [-> [_ [Ha _]]]].
    rewrite Ha. now apply (scanScripts_no_slash pg (ldJson pg)).
  - unfold shopifyStrategy.
    destruct (shopifyMeta pg) as [sp|]; [|reflexivity].
    destruct (sp_variants sp); reflexivity.
Qed.

Lemma domAvailability_no_slash (pg : Page) (e : Extracted) :
  includes (availability e) "/" = false ->
  includes (availability (domAvailability pg e)) "/" = false.
Proof.
  intros H. unfold domAvailability.
  destruct (negb (nonEmpty (availability e)) || (availability e =? EmptyString));
    [|exact H].
  cbn [availability].
  match goal with
  | |- includes (if includes ?a "/" then _ else _) "/" = false =>
      destruct (includes a "/") eqn:Ha
  end.
  - now apply pop_split_last in Ha as [Hseg _].
  - exact Ha.
Qed.

Lemma dom_other_fields_availability (pg : Page) (e : Extracted) :
  availability (domName pg e) = availability e /\
  availability (domPrice pg e) = availability e /\
  availability (domSku pg e) = availability e.
Proof.
  unfold domName, domPrice, domSku.
  destruct (negb (nonEmpty (name e))), (negb (truthy (price e))),
           (negb (nonEmpty (sku e))); repeat split.
Qed.

(** X12.  The availability of the record the extractor returns never
    holds a slash: a URI-like value from the structured data or from the
    document is always cut down to its last segment. *)
Theorem extract_availability_no_slash (pg : Page) :
  includes (availability (extract pg)) "/" = false.
Proof.
  unfold extract.
  destruct (finalOverride_fields (domStrategy pg (structuredRecord pg)))
    as [_ [_ [_ [Ha|[Ha _]]]]]; rewrite Ha; [|reflexivity].
  unfold domStrategy.
  rewrite (proj2 (proj2 (dom_other_fields_availability pg _))).
  apply domAvailability_no_slash.
  rewrite (proj1 (proj2 (dom_other_fields_availability pg _))).
  rewrite (proj1 (dom_other_fields_availability pg _)).
  apply structuredRecord_no_slash.
Qed.

(** X13.  Given a record from the structured data, the Shopify strategy
    always returns a record with the same name and the same
    availability; it leaves the record untouched when its SKU is filled,
    and otherwise changes at most an empty SKU and an empty price. *)
Theorem shopifyStrategy_touches_sku_and_price_only (pg : Page) (e : Extracted) :
  exists e',
    shopifyStrategy pg (Some e) = Some e' /\
    name e' = name e /\ availability e' = availability e /\
    (sku e <> EmptyString -> e' = e) /\
    (sku e' = sku e \/ sku e = EmptyString) /\
    (price e' = price e \/ truthy (price e) = false).
Proof. apply shopifyStrategy_some. Qed.

Lemma shopifyStrategy_touches_sku_and_price_only_witness :
  sku (mkExtracted "Widget" "W-1" (VStr EmptyString) "InStock") <> EmptyString /\
  shopifyStrategy shopifyOnlyPage
    (Some (mkExtracted "Widget" "W-1" (VStr EmptyString) "InStock"))
  = Some (mkExtracted "Widget" "W-1" (VStr EmptyString) "InStock").
Proof.
  assert (H : sku (mkExtracted "Widget" "W-1" (VStr EmptyString) "InStock") <> EmptyString)
    by discriminate.
  split; [exact H|].
  destruct (shopifyStrategy_touches_sku_and_price_only shopifyOnlyPage
              (mkExtracted "Widget" "W-1" (VStr EmptyString) "InStock"))
    as [e' [Hs [_ [_ [Hsame _]]]]].
  rewrite Hs. f_equal. exact (Hsame H).
Defined.

Lemma pickEntries_null (pg : Page) (pre rest : list JsVal) :
  Forall (fun obj => pickEntry pg obj = Ret None) pre ->
  pickEntries pg (pre ++ VNull :: rest) = Throw.
Proof.
  induction 1 as [|obj pre Hobj _ IH]; [reflexivity|].
  cbn [app pickEntries]. now rewrite Hobj.
Qed.

(** X14.  A JSON-LD script whose value is an array with a [null] entry
    before any Product makes [pickProduct] throw, so the script is passed
    over as a whole, even when a Product follows the [null] in it. *)
Theorem null_entry_hides_product (pg : Page) (pre rest : list JsVal)
    (scripts : list (option JsVal)) :
  Forall (fun obj => pickEntry pg obj = Ret None) pre ->
  pickProduct pg (VArr (pre ++ VNull :: rest)) = Throw /\
  scanScripts pg (Some (VArr (pre ++ VNull :: rest)) :: scripts)
    = scanScripts pg scripts.
Proof.
  intros H.
  assert (Ht : pickProduct pg (VArr (pre ++ VNull :: rest)) = Throw)
    by (unfold pickProduct; now apply pickEntries_null).
  split; [exact Ht|]. cbn [scanScripts]. now rewrite Ht.
Qed.

Lemma null_entry_hides_product_witness :
  Forall (fun obj => pickEntry barePage obj = Ret None)
    [VObj [("@type", VStr "BreadcrumbList")]] /\
  scanScripts barePage
    [Some (VArr ([VObj [("@type", VStr "BreadcrumbList")]]
                 ++ VNull :: [ldProduct "Widget" "W-1" VUndef]))]
  = None.
Proof.
  assert (H : Forall (fun obj => pickEntry barePage obj = Ret None)
                [VObj [("@type", VStr "BreadcrumbList")]])
    by (repeat constructor).
  split; [exact H|].
  exact (proj2 (null_entry_hides_product barePage _ [ldProduct "Widget" "W-1" VUndef] [] H)).
Defined.

Lemma scanScripts_skip (pg : Page) (pre rest : list (option JsVal)) :
  Forall (yieldsNothing pg) pre ->
  scanScripts pg (pre ++ rest) = scanScripts pg rest.
Proof.
  induction 1 as [|s pre Hs _ IH]; [reflexivity|].
  cbn [app scanScripts]. destruct s as [j|]; [|exact IH].
  destruct Hs as [Hs|Hs]; now rewrite Hs.
Qed.

(** X15.  The structured-data record is the one of the first script
    that parses and holds a Product: scripts before it that do not
    parse, that make [pickProduct] throw or that hold no Product are
    passed over, and whatever follows it is not read. *)
Theorem first_product_script_wins (pg : Page) (pre post : list (option JsVal))
    (j : JsVal) (e : Extracted) :
  Forall (yieldsNothing pg) pre ->
  pickProduct pg j = Ret (Some e) ->
  scanScripts pg (pre ++ Some j :: post) = Some e.
Proof.
  intros Hpre Hj. rewrite scanScripts_skip by exact Hpre.
  cbn [scanScripts]. now rewrite Hj.
Qed.

Lemma first_product_script_wins_witness :
  (Forall (yieldsNothing barePage) [None; Some VNull; Some (VStr "x")] /\
   pickProduct barePage (ldProduct "Widget" "W-1" VUndef)
     = Ret (Some (mkExtracted "Widget" "W-1" (VStr EmptyString) EmptyString))) /\
  scanScripts barePage
    ([None; Some VNull; Some (VStr "x")]
     ++ Some (ldProduct "Widget" "W-1" VUndef) :: [Some (ldProduct "Other" "O-1" VUndef)])
  = Some (mkExtracted "Widget" "W-1" (VStr EmptyString) EmptyString).
Proof.
  assert (H : Forall (yieldsNothing barePage) [None; Some VNull; Some (VStr "x")]).
  { apply Forall_cons; [exact I|].
    apply Forall_cons; [left; reflexivity|].
    apply Forall_cons; [right; reflexivity|].
    apply Forall_nil. }
  split; [split; [exact H | reflexivity]|].
  exact (first_product_script_wins barePage [None; Some VNull; Some (VStr "x")]
           [Some (ldProduct "Other" "O-1" VUndef)]
           (ldProduct "Widget" "W-1" VUndef)
           (mkExtracted "Widget" "W-1" (VStr EmptyString) EmptyString) H eq_refl).
Defined.

(** ** The number in a price text *)

Lemma spanDigits_split (s : string) :
  forall a b, spanDigits s = (a, b) ->
  s = a ++ b /\ allDigits a = true /\ startsWithDigit b = false.
Proof.
  induction s as [|c r IH]; intros a b H.
  - cbn in H. injection H as <- <-. now repeat split.
  - cbn [spanDigits] in H. destruct (isDigit c) eqn:Hc.
    + destruct (spanDigits r) as [a' b'] eqn:Hr. injection H as <- <-.
      destruct (IH a' b' eq_refl) as [-> [Ha Hb]]. split; [reflexivity|].
      split; [|exact Hb]. cbn [allDigits]. now rewrite Hc.
    + injection H as <- <-. repeat split. exact Hc.
Qed.

Lemma firstNumber_none (s : string) :
  firstNumber s = None <-> anyDigit s = false.
Proof.
  induction s as [|c r IH]; [now split|].
  cbn [firstNumber anyDigit]. destruct (isDigit c) eqn:Hc; cbn [orb].
  - destruct (spanDigits (String c r)) as [a b]. split; discriminate.
  - exact IH.
Qed.

Lemma firstNumber_some (s : string) :
  forall n, firstNumber s = Some n ->
  exists pre whole rest,
    s = pre ++ whole ++ rest /\
    anyDigit pre = false /\
    whole <> EmptyString /\ allDigits whole = true /\
    startsWithDigit rest = false /\
    if startsWithFraction rest
    then exists fs post,
           rest = String "." (fs ++ post) /\
           fs <> EmptyString /\ allDigits fs = true /\
           startsWithDigit post = false /\
           n = whole ++ String "." fs
    else n = whole.
Proof.
  induction s as [|c r IH]; intros n H; [discriminate|].
  cbn [firstNumber] in H. destruct (isDigit c) eqn:Hc.
  - destruct (spanDigits (String c r)) as [ds rest] eqn:Hspan.
    destruct (spanDigits_split _ _ _ Hspan) as [Hs [Hds Hrest]].
    assert (Hne : ds <> EmptyString).
    { cbn [spanDigits] in Hspan. rewrite Hc in Hspan.
      destruct (spanDigits r). injection Hspan as <- _. discriminate. }
    injection H as <-. exists EmptyString, ds, rest.
    split; [exact Hs|]. split; [reflexivity|]. split; [exact Hne|].
    split; [exact Hds|]. split; [exact Hrest|].
    destruct rest as [|d rest'].
    + cbn [startsWithFraction]. now rewrite append_empty_r.
    + cbn [startsWithFraction]. destruct (Ascii.eqb d ".") eqn:Hd; cbn [andb].
      * apply Ascii.eqb_eq in Hd. subst d.
        destruct (spanDigits rest') as [fs post] eqn:Hf.
        destruct (spanDigits_split _ _ _ Hf) as [Hr [Hfs Hpost]].
        destruct fs as [|f fs'].
        -- cbn [append] in Hr. subst rest'. rewrite Hpost.
           cbn [nonEmpty]. now rewrite append_empty_r.
        -- assert (Hf1 : isDigit f = true).
           { cbn [allDigits] in Hfs. now apply andb_true_iff in Hfs. }
           subst rest'. cbn [append startsWithDigit nonEmpty]. rewrite Hf1.
           exists (String f fs'), post. repeat split; auto. discriminate.
      * now rewrite append_empty_r.
  - destruct (IH n H) as [pre [whole [rest [Hs [Hpre Hrest]]]]].
    exists (String c pre), whole, rest.
    split; [cbn [append]; now rewrite <- Hs|].
    split; [cbn [anyDigit]; now rewrite Hc, Hpre | exact Hrest].
Qed.

(** X16.  The price pattern finds nothing exactly in a text without a
    digit.  Otherwise its result is the first run of digits of the
    text, the whole run: no digit comes before it and none follows it.
    When a dot and a digit follow the run, the result goes on with the
    dot and the whole run of digits after it; otherwise it is the run
    alone. *)
Theorem firstNumber_shape (s : string) :
  (firstNumber s = None <-> anyDigit s = false) /\
  (forall n, firstNumber s = Some n ->
   exists pre whole rest,
     s = pre ++ whole ++ rest /\
     anyDigit pre = false /\
     whole <> EmptyString /\ allDigits whole = true /\
     startsWithDigit rest = false /\
     if startsWithFraction rest
     then exists fs post,
            rest = String "." (fs ++ post) /\
            fs <> EmptyString /\ allDigits fs = true /\
            startsWithDigit post = false /\
            n = whole ++ String "." fs
     else n = whole).
Proof. split; [apply firstNumber_none | apply firstNumber_some]. Qed.

Lemma firstNumber_shape_witness :
  firstNumber "from GBP 12.50 (was 15)" = Some "12.50" /\
  exists pre whole rest,
    "from GBP 12.50 (was 15)" = pre ++ whole ++ rest /\
    anyDigit pre = false /\ allDigits whole = true /\
    startsWithDigit rest = false.
Proof.
  split; [reflexivity|].
  destruct (proj2 (firstNumber_shape "from GBP 12.50 (was 15)") "12.50" eq_refl)
    as [pre [whole [rest [Hs [Hp [_ [Hw [Hr _]]]]]]]].
  now exists pre, whole, rest.
Defined.

(** ** The console and the shape of a run *)

Lemma failures_app (web : Web) (a b : list string) :
  failures web (a ++ b) = (failures web a ++ failures web b)%list.
Proof. apply flat_map_app. Qed.

Lemma batchErrors_gotoUrls (web : Web) (urls : list string) :
  batchErrors web urls = failures web (gotoUrls urls).
Proof.
  induction urls as [|u urls IH]; [reflexivity|].
  unfold batchErrors in *. cbn [flat_map gotoUrls filter]. unfold scrapeLog at 1.
  destruct (isBlank u); cbn [negb app]; [exact IH|].
  fold (gotoUrls urls). unfold failures. cbn [flat_map].
  fold (failures web (gotoUrls urls)). rewrite IH.
  now destruct (web u).
Qed.

Lemma successes_failures_length (web : Web) (urls : list string) :
  List.length (successes web urls) + List.length (failures web urls)
  = List.length urls.
Proof.
  induction urls as [|u urls IH]; [reflexivity|].
  unfold successes, failures in *. cbn [flat_map]. rewrite !length_app.
  destruct (web u); cbn [List.length]; lia.
Qed.

Lemma failures_each (web : Web) (urls : list string) (u m : string) :
  In (ScrapeFailed u m) (failures web urls) <->
  In u urls /\ (web u = NavigationFails m \/ web u = EvaluationFails m).
Proof.
  unfold failures. rewrite in_flat_map. split.
  - intros [x [Hx Hin]]. destruct (web x) as [msg|msg|pg] eqn:Hw; cbn in Hin.
    + destruct Hin as [Hin|[]]. injection Hin as <- <-. auto.
    + destruct Hin as [Hin|[]]. injection Hin as <- <-. auto.
    + contradiction.
  - intros [Hu [Hw|Hw]]; exists u; rewrite Hw; cbn; auto.
Qed.

(** X17.  Whatever the order in which the attempts of a batch end,
    every URL of the batch that was handed to the browser and failed is
    reported with [console.error] exactly once, with its URL and its
    message, and nothing else is reported: the lines printed are those
    of the failing URLs up to their order, a line is printed for a URL
    exactly when it is in the batch and fails, and the lines printed and
    the rows appended add up to the URLs attempted. *)
Theorem failures_are_logged (web : Web) (batch settled : list string) :
  Permutation settled batch ->
  Permutation (batchErrors web settled) (failures web (gotoUrls batch)) /\
  (forall u m,
     In (ScrapeFailed u m) (batchErrors web settled) <->
     In u (gotoUrls batch) /\
     (web u = NavigationFails m \/ web u = EvaluationFails m)) /\
  List.length (validResults (map (scrapeOne web) batch))
    + List.length (batchErrors web settled)
  = List.length (gotoUrls batch).
Proof.
  intros Hperm.
  assert (Hp : Permutation (batchErrors web settled) (failures web (gotoUrls batch))).
  { rewrite <- batchErrors_gotoUrls. unfold batchErrors.
    now apply Permutation_flat_map. }
  split; [exact Hp|]. split.
  - intros u m. rewrite <- failures_each. split; intros H.
    + now apply (Permutation_in _ Hp).
    + now apply (Permutation_in _ (Permutation_sym Hp)).
  - rewrite (Permutation_length Hp), validResults_scrape.
    apply successes_failures_length.
Qed.

Lemma failures_are_logged_witness :
  Permutation [demoProductUrl 7; demoProductUrl 2; demoProductUrl 3]
              [demoProductUrl 2; demoProductUrl 3; demoProductUrl 7] /\
  batchErrors demoWeb [demoProductUrl 7; demoProductUrl 2; demoProductUrl 3]
  = [ScrapeFailed (demoProductUrl 7) "document.body is null";
     ScrapeFailed (demoProductUrl 3) "Timeout 60000ms exceeded"] /\
  Permutation
    (batchErrors demoWeb [demoProductUrl 7; demoProductUrl 2; demoProductUrl 3])
    (failures demoWeb (gotoUrls [demoProductUrl 2; demoProductUrl 3; demoProductUrl 7])).
Proof.
  assert (H : Permutation [demoProductUrl 7; demoProductUrl 2; demoProductUrl 3]
                          [demoProductUrl 2; demoProductUrl 3; demoProductUrl 7]).
  { apply (Permutation_cons_append [demoProductUrl 2; demoProductUrl 3]
             (demoProductUrl 7)). }
  split; [exact H|]. split; [reflexivity|].
  exact (proj1 (failures_are_logged demoWeb _ _ H)).
Defined.

Lemma last_app_nonempty {A : Type} (a b : list A) (d : A) :
  b <> [] -> last (a ++ b) d = last b d.
Proof.
  intros Hb. induction a as [|x a IH]; [reflexivity|].
  cbn [app last]. destruct (a ++ b)%list eqn:Hab; [|exact IH].
  apply app_eq_nil in Hab. tauto.
Qed.





